(** * Stroke prediction system: client-side validation, alerts and risk colours

    A shallow embedding of [static/js/app.js] (form validation, the e-mail
    pattern, toast alerts, the risk-level colour table) together with a model
    of the risk scorer that the specification describes. *)

From Stdlib Require Import ZArith QArith Qminmax List String Ascii Bool Lia.
Import ListNotations.

Local Open Scope Z_scope.

(** ** JavaScript strings

    A JavaScript string is a sequence of UTF-16 code units; [length] counts
    code units. *)

Definition char := N.
Definition jsstring := list char.

Definition str (s : string) : jsstring :=
  List.map N_of_ascii (list_ascii_of_string s).

Definition char_eqb (a b : char) : bool := N.eqb a b.
Arguments char_eqb a%_N b%_N.

Fixpoint jsstring_eqb (a b : jsstring) : bool :=
  match a, b with
  | [], [] => true
  | x :: a', y :: b' => char_eqb x y && jsstring_eqb a' b'
  | _, _ => false
  end.

(** White space and line terminators of ECMAScript: what [String.prototype.trim]
    strips and what [\s] matches in a regular expression. *)
Definition isWhiteSpace (c : char) : bool :=
  let n := Z.of_N c in
  ((9 <=? n) && (n <=? 13)) || (n =? 32) || (n =? 160) || (n =? 5760)
  || ((8192 <=? n) && (n <=? 8202)) || (n =? 8232) || (n =? 8233)
  || (n =? 8239) || (n =? 8287) || (n =? 12288) || (n =? 65279).

Fixpoint trimStart (s : jsstring) : jsstring :=
  match s with
  | c :: t => if isWhiteSpace c then trimStart t else s
  | [] => []
  end.

Definition trimEnd (s : jsstring) : jsstring := rev (trimStart (rev s)).

Definition trim (s : jsstring) : jsstring := trimEnd (trimStart s).

(** A string is truthy when it is not empty. *)
Definition truthy_string (s : jsstring) : bool :=
  match s with [] => false | _ => true end.

Fixpoint span (p : char -> bool) (s : jsstring) : jsstring * jsstring :=
  match s with
  | c :: t => if p c then let (a, b) := span p t in (c :: a, b) else ([], s)
  | [] => ([], [])
  end.

Fixpoint strip_prefix (p s : jsstring) : option jsstring :=
  match p, s with
  | [], _ => Some s
  | x :: p', y :: s' => if char_eqb x y then strip_prefix p' s' else None
  | _ :: _, [] => None
  end.

(** ** JavaScript numbers

    A Number is an IEEE-754 binary64 value.  The finite ones are carried by
    the rational they denote (the two zeros are not told apart: no comparison
    of the program distinguishes them). *)

Inductive number : Type :=
| NaN
| Infinity (negative : bool)
| Finite (q : Q).

Definition isNaN (x : number) : bool :=
  match x with NaN => true | _ => false end.

Definition Qltb (x y : Q) : bool := negb (Qle_bool y x).

(** The relational operators [<] and [>]: false as soon as one side is NaN. *)
Definition lt (a b : number) : bool :=
  match a, b with
  | NaN, _ | _, NaN => false
  | Infinity na, Infinity nb => na && negb nb
  | Infinity na, Finite _ => na
  | Finite _, Infinity nb => negb nb
  | Finite x, Finite y => Qltb x y
  end.

Definition gt (a b : number) : bool := lt b a.

Definition of_Z (n : Z) : number := Finite (inject_Z n).

(** Nearest integer to [n / d], ties to even ([0 <= n], [0 < d]). *)
Definition round_nearest_even (n d : Z) : Z :=
  let q := n / d in
  let r := n mod d in
  match 2 * r ?= d with
  | Lt => q
  | Gt => q + 1
  | Eq => if Z.even q then q else q + 1
  end.

(** [m * 2^e] as a rational. *)
Definition scale2 (m e : Z) : Q :=
  if 0 <=? e then inject_Z (m * 2 ^ e)
  else Qred (Qmake m (Z.to_pos (2 ^ (- e)))).

(** Rounding of the positive rational [n / d] to binary64, to nearest, ties to
    even: 53 significant bits, least exponent -1074 (subnormals), overflow to
    infinity from [2^1024 - 2^970] on. *)
Definition round64_pos (negative : bool) (n d : Z) : number :=
  let l := Z.log2 n - Z.log2 d in
  let above := if 0 <=? l then d * 2 ^ l <=? n else d <=? n * 2 ^ (- l) in
  let L := if above then l else l - 1 in
  let e := Z.max (L - 52) (-1074) in
  let m := if 0 <=? e then round_nearest_even n (d * 2 ^ e)
           else round_nearest_even (n * 2 ^ (- e)) d in
  if (971 <? e) || ((e =? 971) && (m =? 2 ^ 53)) then Infinity negative
  else Finite (scale2 (if negative then - m else m) e).

Definition round64 (q : Q) : number :=
  match Qnum q with
  | Z0 => Finite 0
  | Zpos n => round64_pos false (Zpos n) (Zpos (Qden q))
  | Zneg n => round64_pos true (Zpos n) (Zpos (Qden q))
  end.

(** ** Numeric parsing *)

Definition isDigit (c : char) : bool :=
  let n := Z.of_N c in (48 <=? n) && (n <=? 57).

Definition isHexDigit (c : char) : bool :=
  let n := Z.of_N c in
  isDigit c || ((65 <=? n) && (n <=? 70)) || ((97 <=? n) && (n <=? 102)).

Definition digit_value (c : char) : Z :=
  let n := Z.of_N c in
  if isDigit c then n - 48
  else if (65 <=? n) && (n <=? 70) then n - 55
  else n - 87.

(** Mathematical value of a digit string in the given radix. *)
Definition digits_value (radix : Z) (ds : jsstring) : Z :=
  fold_left (fun acc c => acc * radix + digit_value c) ds 0.

Definition split_sign (s : jsstring) : bool * jsstring :=
  match s with
  | c :: t => if char_eqb c 45 then (true, t)
              else if char_eqb c 43 then (false, t)
              else (false, s)
  | [] => (false, [])
  end.

(** [ExponentPart]: an [e] or [E], an optional sign and at least one digit;
    when the part is incomplete it is not consumed and counts as zero. *)
Definition exponent_part (s : jsstring) : Z :=
  match s with
  | c :: t =>
      if char_eqb c 101 || char_eqb c 69 then
        let (neg, t') := split_sign t in
        let (ds, _) := span isDigit t' in
        match ds with
        | [] => 0
        | _ => if neg then - digits_value 10 ds else digits_value 10 ds
        end
      else 0
  | [] => 0
  end.

Definition pow10 (m e : Z) : Q :=
  if 0 <=? e then inject_Z (m * 10 ^ e)
  else Qmake m (Z.to_pos (10 ^ (- e))).

(** [parseFloat]: leading white space is skipped, then the longest prefix
    that is a [StrDecimalLiteral] is read; NaN when there is none. *)
Definition parseFloat (input : jsstring) : number :=
  let s := trimStart input in
  let (neg, s1) := split_sign s in
  match strip_prefix (str "Infinity") s1 with
  | Some _ => Infinity neg
  | None =>
      let (ip, s2) := span isDigit s1 in
      let '(fp, s3) :=
        match s2 with
        | c :: t => if char_eqb c 46 then span isDigit t else ([], s2)
        | [] => ([], s2)
        end in
      match ip ++ fp with
      | [] => NaN
      | ds =>
          let m := digits_value 10 ds in
          let e := exponent_part s3 - Z.of_nat (List.length fp) in
          round64 (pow10 (if neg then - m else m) e)
      end
  end.

(** [parseInt] without a radix: leading white space is skipped, a sign is
    read, [0x] or [0X] selects radix 16, then the longest run of digits is
    read; NaN when it is empty. *)
Definition parseInt (input : jsstring) : number :=
  let s := trimStart input in
  let (neg, s1) := split_sign s in
  let (radix, s2) :=
    match s1 with
    | a :: b :: t =>
        if char_eqb a 48 && (char_eqb b 120 || char_eqb b 88)
        then (16, t) else (10, s1)
    | _ => (10, s1)
    end in
  let (ds, _) := span (if radix =? 16 then isHexDigit else isDigit) s2 in
  match ds with
  | [] => NaN
  | _ =>
      let m := digits_value radix ds in
      round64 (inject_Z (if neg then - m else m))
  end.

(** ** Regular expressions

    The fragment of the pattern language that [emailRegex] uses, matched with
    Brzozowski derivatives.  A pattern anchored by [^] and [$] (no [m] flag)
    has to match the whole subject, which is what [test] computes here. *)

Inductive regex : Type :=
| Never
| Empty
| Class (p : char -> bool)
| Seq (r1 r2 : regex)
| Alt (r1 r2 : regex)
| Star (r : regex).

(** [r+] *)
Definition Plus (r : regex) : regex := Seq r (Star r).

Fixpoint nullable (r : regex) : bool :=
  match r with
  | Never => false
  | Empty => true
  | Class _ => false
  | Seq r1 r2 => nullable r1 && nullable r2
  | Alt r1 r2 => nullable r1 || nullable r2
  | Star _ => true
  end.

Fixpoint deriv (c : char) (r : regex) : regex :=
  match r with
  | Never => Never
  | Empty => Never
  | Class p => if p c then Empty else Never
  | Seq r1 r2 =>
      if nullable r1 then Alt (Seq (deriv c r1) r2) (deriv c r2)
      else Seq (deriv c r1) r2
  | Alt r1 r2 => Alt (deriv c r1) (deriv c r2)
  | Star r1 => Seq (deriv c r1) (Star r1)
  end.

Fixpoint test (r : regex) (s : jsstring) : bool :=
  match s with
  | [] => nullable r
  | c :: t => test (deriv c r) t
  end.

(** [[^\s@]]: any code unit that is neither white space nor [@]. *)
Definition notSpaceAt (c : char) : bool :=
  negb (isWhiteSpace c) && negb (char_eqb c 64).

Definition isChar (x : char) (c : char) : bool := char_eqb c x.

Definition at_sign : char := 64%N.
Definition full_stop : char := 46%N.

(** [/^[^\s@]+@[^\s@]+\.[^\s@]+$/] *)
Definition emailRegex : regex :=
  Seq (Plus (Class notSpaceAt))
    (Seq (Class (isChar at_sign))
       (Seq (Plus (Class notSpaceAt))
          (Seq (Class (isChar full_stop))
             (Plus (Class notSpaceAt))))).

Definition isValidEmail (email : jsstring) : bool := test emailRegex email.

(** ** Form fields and the calls made on the page *)

(** What the validation reads of a form control. [attr_min] and [attr_max]
    are [getAttribute('min')] and [getAttribute('max')], [None] standing for
    [null]. *)
Record Field : Type := mkField {
  field_value : jsstring;
  field_type : jsstring;
  field_name : jsstring;
  required : bool;
  attr_min : option jsstring;
  attr_max : option jsstring
}.

(** An error text: literal pieces and interpolated numbers of a template. *)
Inductive part : Type :=
| Text (s : string)
| Num (n : number).

Definition message := list part.

(** Calls on the page and on the event, in the order they are made. *)
Inductive call : Type :=
| clearFieldError (field : Field)
| showFieldError (field : Field) (m : message)
| preventDefault
| callShowAlert (m : jsstring) (type : jsstring).

(** Computations that return a value and record their calls. *)
Definition M (A : Type) : Type := A * list call.

Definition ret {A} (a : A) : M A := (a, []).

Definition bind {A B} (m : M A) (k : A -> M B) : M B :=
  let (a, l1) := m in
  let (b, l2) := k a in
  (b, l1 ++ l2).

Definition perform (c : call) : M unit := (tt, [c]).

Definition result {A} (m : M A) : A := fst m.
Definition calls {A} (m : M A) : list call := snd m.

Notation "x <- m ;; k" := (bind m (fun x => k))
  (at level 61, m at next level, right associativity).
Notation "m ;;; k" := (bind m (fun _ => k))
  (at level 61, right associativity).

(** [ToString(null)] is the text handed to [parseFloat] for a missing
    attribute. *)
Definition attribute_text (a : option jsstring) : jsstring :=
  match a with
  | Some s => s
  | None => str "null"
  end.

(** [showFieldError(field, m); return false;] *)
Definition reject (field : Field) (m : message) : M bool :=
  perform (showFieldError field m) ;;; ret false.

(** The [switch (fieldType)] of [validateField]: the error to show when a
    case returns false, [None] when control leaves the switch. *)
Definition type_specific (field : Field) (value : jsstring) : option message :=
  let fieldType := field_type field in
  if jsstring_eqb fieldType (str "email") then
    if truthy_string value && negb (isValidEmail value)
    then Some [Text "Please enter a valid email address"]
    else None
  else if jsstring_eqb fieldType (str "number") then
    let min := parseFloat (attribute_text (attr_min field)) in
    let max := parseFloat (attribute_text (attr_max field)) in
    let numValue := parseFloat value in
    if truthy_string value && isNaN numValue
    then Some [Text "Please enter a valid number"]
    else if negb (isNaN min) && lt numValue min
    then Some [Text "Value must be at least "; Num min]
    else if negb (isNaN max) && gt numValue max
    then Some [Text "Value must be no more than "; Num max]
    else None
  else if jsstring_eqb fieldType (str "password") then
    if truthy_string value && (Nat.ltb (List.length value) 6)
    then Some [Text "Password must be at least 6 characters long"]
    else None
  else None.

Definition age_out_of_range (value : jsstring) : bool :=
  let age := parseInt value in
  lt age (of_Z 0) || gt age (of_Z 120).

Definition bmi_out_of_range (value : jsstring) : bool :=
  let bmi := parseFloat value in
  lt bmi (of_Z 10) || gt bmi (of_Z 60).

Definition glucose_out_of_range (value : jsstring) : bool :=
  let glucose := parseFloat value in
  lt glucose (of_Z 50) || gt glucose (of_Z 500).

Definition validateField (field : Field) : M bool :=
  let value := trim (field_value field) in
  let fieldName := field_name field in
  perform (clearFieldError field) ;;;
  if required field && negb (truthy_string value) then
    reject field [Text "This field is required"]
  else
    match type_specific field value with
    | Some m => reject field m
    | None =>
        if jsstring_eqb fieldName (str "age") && truthy_string value
           && age_out_of_range value
        then reject field [Text "Please enter a valid age (0-120)"]
        else if jsstring_eqb fieldName (str "bmi") && truthy_string value
                && bmi_out_of_range value
        then reject field [Text "Please enter a valid BMI (10-60)"]
        else if jsstring_eqb fieldName (str "avg_glucose_level")
                && truthy_string value && glucose_out_of_range value
        then reject field
               [Text "Please enter a valid glucose level (50-500 mg/dL)"]
        else ret true
    end.

(** A form, as far as validation sees it: the controls below it, in document
    order. *)
Definition Form := list Field.

(** [form.querySelectorAll('[required]')] *)
Definition requiredFields (form : Form) : list Field :=
  filter required form.

(** The [forEach] of [validateForm], threading [isValid]. *)
Fixpoint validateEach (fields : list Field) (isValid : bool) : M bool :=
  match fields with
  | [] => ret isValid
  | field :: rest =>
      ok <- validateField field ;;
      validateEach rest (if negb ok then false else isValid)
  end.

Definition validateForm (form : Form) : M bool :=
  validateEach (requiredFields form) true.

(** The listener that [initializeFormValidation] installs for [submit]. *)
Definition onSubmit (form : Form) : M unit :=
  valid <- validateForm form ;;
  if negb valid then
    perform preventDefault ;;;
    perform (callShowAlert (str "Please fill in all required fields correctly.")
               (str "warning"))
  else ret tt.

(** ** JavaScript objects used as lookup tables *)

Inductive jsval : Type :=
| VUndefined
| VString (s : jsstring)
| VFunction (name : string)
| VObject (description : string).

(** ToBoolean *)
Definition truthy (v : jsval) : bool :=
  match v with
  | VUndefined => false
  | VString s => truthy_string s
  | VFunction _ | VObject _ => true
  end.

Definition properties := list (jsstring * jsval).

Fixpoint getOwnProperty (o : properties) (key : jsstring) : option jsval :=
  match o with
  | [] => None
  | (k, v) :: rest => if jsstring_eqb k key then Some v else getOwnProperty rest key
  end.

(** The properties every object literal inherits from [Object.prototype]. *)
Definition ObjectPrototype : properties :=
  [ (str "constructor", VFunction "Object");
    (str "hasOwnProperty", VFunction "hasOwnProperty");
    (str "isPrototypeOf", VFunction "isPrototypeOf");
    (str "propertyIsEnumerable", VFunction "propertyIsEnumerable");
    (str "toLocaleString", VFunction "toLocaleString");
    (str "toString", VFunction "toString");
    (str "valueOf", VFunction "valueOf");
    (str "__proto__", VObject "Object.prototype");
    (str "__defineGetter__", VFunction "__defineGetter__");
    (str "__defineSetter__", VFunction "__defineSetter__");
    (str "__lookupGetter__", VFunction "__lookupGetter__");
    (str "__lookupSetter__", VFunction "__lookupSetter__") ].

(** [o[key]] on an object literal: own properties first, then the prototype
    chain, [undefined] when the key is nowhere. *)
Definition get (o : properties) (key : jsstring) : jsval :=
  match getOwnProperty o key with
  | Some v => v
  | None =>
      match getOwnProperty ObjectPrototype key with
      | Some v => v
      | None => VUndefined
      end
  end.

(** [a || b] *)
Definition or_else (a b : jsval) : jsval := if truthy a then a else b.

Definition default_color : jsstring := str "#6c757d".

Definition getRiskLevelColor (level : jsstring) : jsval :=
  let colors : properties :=
    [ (str "Very Low", VString (str "#28a745"));
      (str "Low", VString (str "#17a2b8"));
      (str "Moderate", VString (str "#ffc107"));
      (str "High", VString (str "#fd7e14"));
      (str "Very High", VString (str "#dc3545"));
      (str "Critical", VString (str "#6f42c1")) ] in
  or_else (get colors level) (VString default_color).

(** The tier names of the specification, in order. *)
Definition tier_names : list jsstring :=
  [ str "Very Low"; str "Low"; str "Moderate"; str "High"; str "Very High";
    str "Critical" ].

(** ** The page and toast alerts *)

Local Unset Elimination Schemes.

Inductive node : Type :=
| TextNode (data : jsstring)
| Element (tag : string) (classList : list jsstring) (children : list node).

Local Set Elimination Schemes.

(** What a call leaves behind: it returns, or it throws. *)
Inductive outcome (A : Type) : Type :=
| Returns (a : A)
| Throws.

Arguments Returns {A} a.
Arguments Throws {A}.

(** The document: its document element, or nothing once that was removed. *)
Definition document := option node.

Definition hasClass (c : jsstring) (classList : list jsstring) : bool :=
  existsb (jsstring_eqb c) classList.

(** Number of elements of class [c] in a subtree: the length of
    [querySelectorAll('.' + c)] below and including the node. *)
Fixpoint count_class (c : jsstring) (n : node) : nat :=
  match n with
  | TextNode _ => 0%nat
  | Element _ cl kids =>
      ((if hasClass c cl then 1 else 0)
       + list_sum (List.map (count_class c) kids))%nat
  end.

Definition count_forest (c : jsstring) (ns : list node) : nat :=
  list_sum (List.map (count_class c) ns).

Definition count_document (c : jsstring) (doc : document) : nat :=
  match doc with
  | Some root => count_class c root
  | None => 0%nat
  end.

(** [querySelectorAll('.' + c).forEach(e => e.remove())] on a subtree: what
    is left of it, nothing when the node itself matches. *)
Fixpoint remove_class_elements (c : jsstring) (n : node) : list node :=
  match n with
  | TextNode _ => [n]
  | Element tag cl kids =>
      if hasClass c cl then []
      else [Element tag cl (flat_map (remove_class_elements c) kids)]
  end.

Definition removeAll (c : jsstring) (doc : document) : document :=
  match doc with
  | Some root =>
      match remove_class_elements c root with
      | r :: _ => Some r
      | [] => None
      end
  | None => None
  end.

Definition is_body (n : node) : bool :=
  match n with
  | Element tag _ _ => String.eqb tag "body" || String.eqb tag "frameset"
  | TextNode _ => false
  end.

(** [parent.appendChild(child)] *)
Definition appendChild (child : node) (parent : node) : node :=
  match parent with
  | Element tag cl kids => Element tag cl (kids ++ [child])
  | TextNode _ => parent
  end.

(** Appends to the first child that is the body, if there is one. *)
Fixpoint append_to_body (child : node) (kids : list node) : option (list node) :=
  match kids with
  | [] => None
  | k :: rest =>
      if is_body k then Some (appendChild child k :: rest)
      else option_map (cons k) (append_to_body child rest)
  end.

(** [document.body.appendChild(child)]; [document.body] is the first body
    child of the [html] document element and [null] otherwise, in which case
    the call throws. *)
Definition body_appendChild (child : node) (doc : document) : outcome document :=
  match doc with
  | Some (Element tag cl kids) =>
      if String.eqb tag "html" then
        match append_to_body child kids with
        | Some kids' => Returns (Some (Element tag cl kids'))
        | None => Throws
        end
      else Throws
  | _ => Throws
  end.

Definition isAsciiWhitespace (c : char) : bool :=
  let n := Z.of_N c in
  (n =? 9) || (n =? 10) || (n =? 12) || (n =? 13) || (n =? 32).

(** Tokens of a [className]: the maximal runs without ASCII white space.
    [cur] is the current run, reversed. *)
Fixpoint tokens_from (cur : jsstring) (s : jsstring) : list jsstring :=
  match s with
  | [] => match cur with [] => [] | _ => [rev cur] end
  | c :: t =>
      if isAsciiWhitespace c then
        match cur with
        | [] => tokens_from [] t
        | _ => rev cur :: tokens_from [] t
        end
      else tokens_from (c :: cur) t
  end.

Definition classTokens (className : jsstring) : list jsstring :=
  tokens_from [] className.

Definition toast : jsstring := str "alert-toast".

(** ToString of a looked-up icon. *)
Definition to_text (v : jsval) : jsstring :=
  match v with
  | VUndefined => str "undefined"
  | VString s => s
  | VFunction name => str ("function " ++ name ++ "() { [native code] }")
  | VObject _ => str "[object Object]"
  end.

Definition icons : properties :=
  [ (str "success", VString [9989%N]);
    (str "warning", VString [9888%N; 65039%N]);
    (str "danger", VString [10060%N]);
    (str "info", VString [8505%N; 65039%N]) ].

(** *** The markup of the alert

    [showAlert] assigns a template with the icon and the message spliced in
    to [innerHTML]; what the alert then contains is what the HTML fragment
    parser of the browser makes of that text. *)

Definition quotation_mark : char := 34%N.
Definition line_feed : char := 10%N.

Definition quoted (s : jsstring) : jsstring := quotation_mark :: s ++ [quotation_mark].

Definition spaces (n : nat) : jsstring := repeat 32%N n.

(** The template up to the icon. *)
Definition alert_html_head : jsstring :=
  line_feed :: spaces 8
  ++ str "<div style="
  ++ quoted (str "display: flex; align-items: center; gap: 10px;")
  ++ str ">"
  ++ line_feed :: spaces 12
  ++ str "<span style=" ++ quoted (str "font-size: 18px;") ++ str ">".

(** The template between the icon and the message. *)
Definition alert_html_middle : jsstring :=
  str "</span>" ++ line_feed :: spaces 12 ++ str "<span>".

(** The template after the message. *)
Definition alert_html_tail : jsstring :=
  str "</span>"
  ++ line_feed :: spaces 12
  ++ str "<button onclick="
  ++ quoted (str "this.parentElement.parentElement.remove()")
  ++ str " style="
  ++ quoted (str "background: none; border: none; font-size: 18px; cursor: pointer; margin-left: auto;")
  ++ str ">" ++ [215%N] ++ str "</button>"
  ++ line_feed :: spaces 8 ++ str "</div>"
  ++ line_feed :: spaces 4.

(** [${icons[type] || icons.info}] *)
Definition icon (type : jsstring) : jsstring :=
  to_text (or_else (get icons type) (get icons (str "info"))).

(** The text assigned to [alert.innerHTML]. *)
Definition alert_html (message type : jsstring) : jsstring :=
  alert_html_head ++ icon type ++ alert_html_middle ++ message
  ++ alert_html_tail.

(** Tokens of the HTML tokenizer. *)
Inductive token : Type :=
| Character (c : char)
| StartTag (name : jsstring) (attributes : list (jsstring * jsstring))
| EndTag (name : jsstring).

(** The states of the tokenizer that the covered markup goes through; names
    and values are gathered latest character first. *)
Inductive tokenizer_state : Type :=
| Data
| TagOpen
| EndTagOpen
| TagName (closing : bool) (name : jsstring)
| BeforeAttributeName (tag : jsstring) (attributes : list (jsstring * jsstring))
| AttributeName (tag : jsstring) (attributes : list (jsstring * jsstring))
    (name : jsstring)
| BeforeAttributeValue (tag : jsstring) (attributes : list (jsstring * jsstring))
    (name : jsstring)
| AttributeValue (tag : jsstring) (attributes : list (jsstring * jsstring))
    (name : jsstring) (value : jsstring)
| AfterAttributeValue (tag : jsstring) (attributes : list (jsstring * jsstring)).

Definition isLowerAlpha (c : char) : bool :=
  let n := Z.of_N c in (97 <=? n) && (n <=? 122).

Definition isNameChar (c : char) : bool :=
  isLowerAlpha c || isDigit c || char_eqb c 45.

(** Tab, line feed, form feed and space. *)
Definition isTagSpace (c : char) : bool :=
  char_eqb c 9 || char_eqb c 10 || char_eqb c 12 || char_eqb c 32.

(** One step of the HTML tokenizer on the markup covered here: text
    without character references and carriage returns, start tags whose
    attributes are written [name="value"] with white space before each,
    and end tags without anything after the name; names in lower case.
    The step gives the token emitted, if any, and the next state; on
    anything else it gives [None]: the markup is not covered. *)
Definition tokenizer_step (state : tokenizer_state) (c : char)
  : option (list token * tokenizer_state) :=
  match state with
  | Data =>
      if char_eqb c 60 then Some ([], TagOpen)
      else if char_eqb c 38 || char_eqb c 13 then None
      else Some ([Character c], Data)
  | TagOpen =>
      if char_eqb c 47 then Some ([], EndTagOpen)
      else if isLowerAlpha c then Some ([], TagName false [c])
      else None
  | EndTagOpen =>
      if isLowerAlpha c then Some ([], TagName true [c]) else None
  | TagName closing name =>
      if isLowerAlpha c || isDigit c
      then Some ([], TagName closing (c :: name))
      else if char_eqb c 62
      then Some ([if closing then EndTag (rev name) else StartTag (rev name) []],
                 Data)
      else if isTagSpace c && negb closing
      then Some ([], BeforeAttributeName (rev name) [])
      else None
  | BeforeAttributeName tag attributes =>
      if isTagSpace c then Some ([], BeforeAttributeName tag attributes)
      else if char_eqb c 62
      then Some ([StartTag tag (rev attributes)], Data)
      else if isNameChar c then Some ([], AttributeName tag attributes [c])
      else None
  | AttributeName tag attributes name =>
      if isNameChar c then Some ([], AttributeName tag attributes (c :: name))
      else if char_eqb c 61
      then if existsb (fun a => jsstring_eqb (fst a) (rev name)) attributes
           then None
           else Some ([], BeforeAttributeValue tag attributes (rev name))
      else None
  | BeforeAttributeValue tag attributes name =>
      if char_eqb c 34 then Some ([], AttributeValue tag attributes name [])
      else None
  | AttributeValue tag attributes name value =>
      if char_eqb c 34
      then Some ([], AfterAttributeValue tag ((name, rev value) :: attributes))
      else if char_eqb c 38 || char_eqb c 13 || char_eqb c 0 then None
      else Some ([], AttributeValue tag attributes name (c :: value))
  | AfterAttributeValue tag attributes =>
      if isTagSpace c then Some ([], BeforeAttributeName tag attributes)
      else if char_eqb c 62
      then Some ([StartTag tag (rev attributes)], Data)
      else None
  end.

(** The tokens of a text that ends outside a tag (a text that ends inside
    one is not covered). *)
Fixpoint tokenize (state : tokenizer_state) (input : jsstring)
  : option (list token) :=
  match input with
  | [] =>
      match state with
      | Data => Some []
      | _ => None
      end
  | c :: rest =>
      match tokenizer_step state c with
      | Some (emitted, state') =>
          option_map (app emitted) (tokenize state' rest)
      | None => None
      end
  end.

(** An element that is open during tree construction, its children latest
    first. *)
Record open_element : Type := mkOpen {
  open_tag : string;
  open_classes : list jsstring;
  open_children : list node
}.

(** The stack of open elements, innermost first, and the children gathered
    for the element whose [innerHTML] is set, latest first. *)
Definition builder : Type := list open_element * list node.

(** A character goes into the text node before it, if there is one. *)
Definition insert_character (c : char) (kids : list node) : list node :=
  match kids with
  | TextNode data :: before => TextNode (data ++ [c]) :: before
  | _ => TextNode [c] :: kids
  end.

Definition insert_node (n : node) (b : builder) : builder :=
  match b with
  | (e :: stack, root) =>
      (mkOpen (open_tag e) (open_classes e) (n :: open_children e) :: stack,
       root)
  | ([], root) => ([], n :: root)
  end.

(** The elements covered: [div], [span] and [button]. *)
Definition covered_tag (name : jsstring) : option string :=
  if jsstring_eqb name (str "div") then Some "div"%string
  else if jsstring_eqb name (str "span") then Some "span"%string
  else if jsstring_eqb name (str "button") then Some "button"%string
  else None.

Definition class_attribute (attributes : list (jsstring * jsstring))
  : list jsstring :=
  match find (fun a => jsstring_eqb (fst a) (str "class")) attributes with
  | Some (_, value) => classTokens value
  | None => []
  end.

(** Tree construction in the body, for the covered elements when they nest
    properly: a start tag opens an element (a [button] inside a [button]
    is not covered), an end tag closes the current element when it bears
    its name, a character other than NUL is inserted. *)
Definition build_step (t : token) (b : builder) : option builder :=
  match t with
  | Character c =>
      if char_eqb c 0 then Some b
      else
        match b with
        | (e :: stack, root) =>
            Some (mkOpen (open_tag e) (open_classes e)
                    (insert_character c (open_children e)) :: stack, root)
        | ([], root) => Some ([], insert_character c root)
        end
  | StartTag name attributes =>
      match covered_tag name with
      | Some tag =>
          if String.eqb tag "button"
             && existsb (fun e => String.eqb (open_tag e) "button") (fst b)
          then None
          else Some (mkOpen tag (class_attribute attributes) [] :: fst b, snd b)
      | None => None
      end
  | EndTag name =>
      match b with
      | (e :: stack, root) =>
          match covered_tag name with
          | Some tag =>
              if String.eqb tag (open_tag e)
              then Some (insert_node
                           (Element (open_tag e) (open_classes e)
                              (rev (open_children e)))
                           (stack, root))
              else None
          | None => None
          end
      | ([], _) => None
      end
  end.

Fixpoint build (tokens : list token) (b : builder) : option (list node) :=
  match tokens with
  | [] =>
      match b with
      | ([], root) => Some (rev root)
      | _ => None
      end
  | t :: rest =>
      match build_step t b with
      | Some b' => build rest b'
      | None => None
      end
  end.

(** The children that setting [innerHTML] of a [div] to the text gives, for
    the markup covered. *)
Definition parseFragment (html : jsstring) : option (list node) :=
  match tokenize Data html with
  | Some tokens => build tokens ([], [])
  | None => None
  end.

(** A fragment parser says what the model says wherever the model
    reaches. *)
Definition agrees (parse : jsstring -> list node) : Prop :=
  forall html nodes, parseFragment html = Some nodes -> parse html = nodes.

(** A parser that agrees with the model, and gives nothing where the model
    does not reach. *)
Definition sample_parse (html : jsstring) : list node :=
  match parseFragment html with
  | Some nodes => nodes
  | None => []
  end.

(** [showAlert(message, type)], its synchronous part: the two timers it sets
    run later.  [parse] is the HTML fragment parser of the browser. *)
Definition showAlert (parse : jsstring -> list node)
    (message : jsstring) (type : jsstring) (doc : document)
  : outcome document :=
  let doc1 := removeAll toast doc in
  let alert :=
    Element "div"
      (classTokens (str "alert alert-" ++ type ++ str " alert-toast"))
      (parse (alert_html message type)) in
  body_appendChild alert doc1.

(** A text without markup: no [<], no [&] and no carriage return. *)
Definition plain_text (s : jsstring) : bool :=
  forallb (fun c => negb (char_eqb c 60 || char_eqb c 38 || char_eqb c 13)) s.

(** ** The risk scorer *)

Module RiskScorer.

Local Open Scope Q_scope.

(** Modelled from the spec: the categorical fields of HealthProfile; the
    scorer itself ([app.py]) is not among the sources. *)
Inductive Gender : Type := male | female | other.
Inductive WorkType : Type :=
  private | self_employed | government | never_worked | child.
Inductive ResidenceType : Type := urban | rural.
Inductive SmokingStatus : Type := never | former | current | unknown.

(** Modelled from the spec: HealthProfile, the validated input record of the
    missing scorer. *)
Record HealthProfile : Type := mkProfile {
  age : Z;
  gender : Gender;
  hypertension : bool;
  heart_disease : bool;
  ever_married : bool;
  work_type : WorkType;
  residence_type : ResidenceType;
  avg_glucose_level : Q;
  bmi : Q;
  smoking_status : SmokingStatus
}.

(** Modelled from the spec: the invariant of HealthProfile, every field
    within its stated range (the missing validator enforces it). *)
Definition valid_profile (p : HealthProfile) : Prop :=
  (0 <= age p <= 120)%Z
  /\ 50 <= avg_glucose_level p /\ avg_glucose_level p <= 500
  /\ 10 <= bmi p /\ bmi p <= 60.

(** Modelled from the spec: the ordered tier enumeration of the missing
    scorer. *)
Inductive Tier : Type := VeryLow | Low | Moderate | High | VeryHigh | Critical.

(** Modelled from the spec: RiskResult, the output record of the missing
    scorer. *)
Record RiskResult : Type := mkResult {
  result_score : Q;
  result_tier : Tier;
  contributing_factors : list (string * Q)
}.

(** Modelled from the spec: one rule of the fixed rule list of the missing
    scorer, a factor name and the weight it adds for a profile (zero when
    its condition does not hold). *)
Record Rule : Type := mkRule {
  factor : string;
  weight : HealthProfile -> Q
}.

(** Modelled from the spec: the configuration data of the missing scorer, the
    rule table in evaluation order, the bound range and the five ascending
    tier cutoffs. *)
Record Config : Type := mkConfig {
  rules : list Rule;
  lower : Q;
  upper : Q;
  t1 : Q; t2 : Q; t3 : Q; t4 : Q; t5 : Q
}.

(** Modelled from the spec: step 4 of the missing scorer, clamping to the
    bound range. *)
Definition clamp (lo hi x : Q) : Q :=
  if Qltb x lo then lo else if Qltb hi x then hi else x.

(** Modelled from the spec: step 5 of the missing scorer, the tier of a
    clamped score by ascending cutoffs. *)
Definition tier_of (cfg : Config) (s : Q) : Tier :=
  if Qltb s (t1 cfg) then VeryLow
  else if Qltb s (t2 cfg) then Low
  else if Qltb s (t3 cfg) then Moderate
  else if Qltb s (t4 cfg) then High
  else if Qltb s (t5 cfg) then VeryHigh
  else Critical.

(** Modelled from the spec: steps 1 to 3 of the missing scorer, starting from
    0 each rule in order adds its weight and a non-zero contribution is
    recorded. *)
Fixpoint accumulate (rs : list Rule) (p : HealthProfile)
    (total : Q) (factors : list (string * Q)) : Q * list (string * Q) :=
  match rs with
  | [] => (total, factors)
  | r :: rest =>
      let w := weight r p in
      if Qeq_bool w 0 then accumulate rest p total factors
      else accumulate rest p (total + w) (factors ++ [(factor r, w)])
  end.

(** Modelled from the spec: [score(profile)] of the missing scorer
    ([app.py]). *)
Definition score (cfg : Config) (profile : HealthProfile) : RiskResult :=
  let (total, factors) := accumulate (rules cfg) profile 0 [] in
  let s := clamp (lower cfg) (upper cfg) total in
  mkResult s (tier_of cfg s) factors.

(** Modelled from the spec: a rule table with the example thresholds the
    specification names (illustrative weights). *)
Definition example_rules : list Rule :=
  [ mkRule "age" (fun p =>
      if (age p <? 50)%Z then 0 else inject_Z (10 * ((age p - 40) / 10)));
    mkRule "hypertension" (fun p => if hypertension p then 15 else 0);
    mkRule "heart_disease" (fun p => if heart_disease p then 15 else 0);
    mkRule "avg_glucose_level" (fun p =>
      if Qltb 200 (avg_glucose_level p) then 20
      else if Qltb 140 (avg_glucose_level p) then 10 else 0);
    mkRule "bmi" (fun p =>
      if Qltb (bmi p) (37 # 2) then 5
      else if Qltb 40 (bmi p) then 15
      else if Qltb 30 (bmi p) then 10 else 0);
    mkRule "smoking_status" (fun p =>
      match smoking_status p with
      | current => 15 | former => 8 | _ => 0
      end) ].

(** Modelled from the spec: a configuration with the example bound range
    [0, 100]. *)
Definition example_config : Config :=
  mkConfig example_rules 0 100 10 25 45 65 85.

(** Modelled from the spec: the first profile of its worked example (age 70,
    hypertension, glucose 160, BMI 32, current smoker). *)
Definition example_profile : HealthProfile :=
  mkProfile 70 male true false true private urban 160 32 current.

End RiskScorer.

(** ** The language of a pattern *)

Inductive star (L : jsstring -> Prop) : jsstring -> Prop :=
| star_nil : star L []
| star_app (u v : jsstring) : L u -> star L v -> star L (u ++ v).

Fixpoint lang (r : regex) : jsstring -> Prop :=
  match r with
  | Never => fun _ => False
  | Empty => fun s => s = []
  | Class p => fun s => exists c, s = [c] /\ p c = true
  | Seq r1 r2 => fun s => exists u v, s = u ++ v /\ lang r1 u /\ lang r2 v
  | Alt r1 r2 => fun s => lang r1 s \/ lang r2 s
  | Star r1 => star (lang r1)
  end.

(** A character that is neither white space nor [@]. *)
Definition plain (c : char) : Prop := isWhiteSpace c = false /\ c <> at_sign.

(** The shape of an accepted address, in the words of the description: one
    or more plain characters, a single [@], one or more plain characters, a
    [.], one or more plain characters. *)
Definition email_shape (s : jsstring) : Prop :=
  exists a b c,
    s = a ++ at_sign :: b ++ full_stop :: c
    /\ a <> [] /\ b <> [] /\ c <> []
    /\ Forall plain a /\ Forall plain b /\ Forall plain c.

(** ** Statements and sample inputs *)

(** A number lies between two integers, ends included. *)
Definition between (lo hi : Z) (x : number) : Prop :=
  match x with
  | Finite q => (inject_Z lo <= q /\ q <= inject_Z hi)%Q
  | _ => False
  end.

(** The first check of [validateField] that fails, with its error text. *)
Definition first_error (field : Field) : option message :=
  let value := trim (field_value field) in
  if required field && negb (truthy_string value)
  then Some [Text "This field is required"]
  else
    match type_specific field value with
    | Some m => Some m
    | None =>
        if jsstring_eqb (field_name field) (str "age") && truthy_string value
           && age_out_of_range value
        then Some [Text "Please enter a valid age (0-120)"]
        else if jsstring_eqb (field_name field) (str "bmi")
                && truthy_string value && bmi_out_of_range value
        then Some [Text "Please enter a valid BMI (10-60)"]
        else if jsstring_eqb (field_name field) (str "avg_glucose_level")
                && truthy_string value && glucose_out_of_range value
        then Some [Text "Please enter a valid glucose level (50-500 mg/dL)"]
        else None
    end.

(** An optionally signed run of decimal digits, and nothing else: the
    integer such a text denotes. *)
Definition integer_literal (s : jsstring) : option Z :=
  let (neg, ds) := split_sign s in
  match ds with
  | [] => None
  | _ => if forallb isDigit ds
         then Some (if neg then - digits_value 10 ds else digits_value 10 ds)
         else None
  end.

(** The description of the age check, as worded: a field named [age] with a
    value is accepted exactly when the value denotes an integer from 0 to
    120. *)
Definition age_claim (field : Field) : Prop :=
  field_name field = str "age" ->
  trim (field_value field) <> [] ->
  (result (validateField field) = true <->
   exists n, integer_literal (trim (field_value field)) = Some n
             /\ 0 <= n <= 120).

(** The description of a range check on a parsed number, as worded: the
    field of that name with a value is accepted exactly when the parsed
    value lies in the range. *)
Definition range_claim (name : string) (lo hi : Z) (field : Field) : Prop :=
  field_name field = str name ->
  trim (field_value field) <> [] ->
  (result (validateField field) = true <->
   between lo hi (parseFloat (trim (field_value field)))).

(** The description of the password check, as worded: a password field with
    a value is rejected exactly when the value has fewer than 6 characters.
    [value_of] is the value meant: the one the field holds, or the trimmed
    one that [validateField] works on. *)
Definition password_claim (value_of : Field -> jsstring) (field : Field)
  : Prop :=
  field_type field = str "password" ->
  value_of field <> [] ->
  (result (validateField field) = false <->
   (List.length (value_of field) < 6)%nat).

Ltac name_is H :=
  rewrite H;
  change (jsstring_eqb (str "age") (str "age")) with true;
  change (jsstring_eqb (str "bmi") (str "bmi")) with true;
  change (jsstring_eqb (str "avg_glucose_level") (str "avg_glucose_level"))
    with true;
  change (jsstring_eqb (str "age") (str "bmi")) with false;
  change (jsstring_eqb (str "age") (str "avg_glucose_level")) with false;
  change (jsstring_eqb (str "bmi") (str "age")) with false;
  change (jsstring_eqb (str "bmi") (str "avg_glucose_level")) with false;
  change (jsstring_eqb (str "avg_glucose_level") (str "age")) with false;
  change (jsstring_eqb (str "avg_glucose_level") (str "bmi")) with false.

(** A required number input without [min] and [max]. *)
Definition number_input (name value : string) : Field :=
  mkField (str value) (str "number") (str name) true None None.

Definition age_thirty : Field :=
  mkField (str "30") (str "number") (str "age") true
    (Some (str "0")) (Some (str "120")).

(** A number input named [age] holding [12.5]: a value that is not an
    integer, and is accepted. *)
Definition age_twelve_and_a_half : Field :=
  mkField (str "12.5") (str "number") (str "age") true
    (Some (str "0")) (Some (str "120")).

Definition bmi_twenty_two : Field :=
  mkField (str "22.5") (str "number") (str "bmi") true None None.

(** A number input named [bmi] whose [min] attribute is 15, holding 12. *)
Definition bmi_below_min : Field :=
  mkField (str "12") (str "number") (str "bmi") true
    (Some (str "15")) (Some (str "60")).

Definition glucose_fifty : Field :=
  mkField (str "50") (str "number") (str "avg_glucose_level") true None None.

(** A number input named [avg_glucose_level] whose [min] attribute is 70,
    holding 60. *)
Definition glucose_below_min : Field :=
  mkField (str "60") (str "number") (str "avg_glucose_level") true
    (Some (str "70")) (Some (str "500")).

Definition short_password : Field :=
  mkField (str "abc") (str "password") (str "password") false None None.

(** A password input holding a space followed by [abcde]: six characters. *)
Definition padded_password : Field :=
  mkField (str " abcde") (str "password") (str "password") true None None.

(** A password input that goes by the name [age], holding seven digits. *)
Definition password_named_age : Field :=
  mkField (str "1234567") (str "password") (str "age") true None None.

Definition is_field_call (c : call) : Prop :=
  match c with
  | clearFieldError _ | showFieldError _ _ => True
  | preventDefault | callShowAlert _ _ => False
  end.

Definition warning_alert : call :=
  callShowAlert (str "Please fill in all required fields correctly.")
    (str "warning").

(** The description of the toast invariant, as worded: whenever [showAlert]
    returns, exactly one element of class [alert-toast] is in the
    document. *)
Definition single_toast_claim (parse : jsstring -> list node)
    (message type : jsstring) (doc : document) : Prop :=
  forall doc', showAlert parse message type doc = Returns doc' ->
               count_document toast doc' = 1%nat.

(** A page whose body shows two toasts. *)
Definition page_with_toasts : document :=
  Some (Element "html" []
          [ Element "head" [] [];
            Element "body" []
              [ Element "form" [] [];
                Element "div" [str "alert"; toast] [TextNode (str "old")];
                Element "div" [toast] [] ] ]).

(** That page after [showAlert('Saved', 'warning')]. *)
Definition page_after_alert : document :=
  Some (Element "html" []
          [ Element "head" [] [];
            Element "body" []
              [ Element "form" [] [];
                Element "div" [str "alert"; str "alert-warning"; toast]
                  (sample_parse (alert_html (str "Saved") (str "warning"))) ] ]).

(** A message that is itself an element of class [alert-toast]. *)
Definition toast_markup : jsstring :=
  str "<div class=" ++ quoted (str "alert-toast") ++ str ">x</div>".

(** The start tags of class [c] among tokens. *)
Definition tags_of_class (c : jsstring) (tokens : list token) : nat :=
  List.length
    (filter (fun t => match t with
                      | StartTag _ attributes => hasClass c (class_attribute attributes)
                      | _ => false
                      end) tokens).

(** The elements of class [c] that a builder holds, open or closed. *)
Definition held (c : jsstring) (b : builder) : nat :=
  (list_sum (List.map (fun e => (if hasClass c (open_classes e) then 1 else 0)
                                + count_forest c (open_children e))%nat
               (fst b))
   + count_forest c (snd b))%nat.

(** The tags open after some tokens, innermost first; [None] where
    [build] gives up. *)
Fixpoint nest (tokens : list token) (open : list string) : option (list string) :=
  match tokens with
  | [] => Some open
  | Character _ :: rest => nest rest open
  | StartTag name _ :: rest =>
      match covered_tag name with
      | Some tag =>
          if String.eqb tag "button"
             && existsb (fun o => String.eqb o "button") open
          then None
          else nest rest (tag :: open)
      | None => None
      end
  | EndTag name :: rest =>
      match open with
      | o :: outer =>
          match covered_tag name with
          | Some tag => if String.eqb tag o then nest rest outer else None
          | None => None
          end
      | [] => None
      end
  end.

(** The tokens of a stretch of text and the state it ends in. *)
Fixpoint scan (state : tokenizer_state) (input : jsstring)
  : option (list token * tokenizer_state) :=
  match input with
  | [] => Some ([], state)
  | c :: rest =>
      match tokenizer_step state c with
      | Some (emitted, state') =>
          match scan state' rest with
          | Some (more, final) => Some (emitted ++ more, final)
          | None => None
          end
      | None => None
      end
  end.

(** The tokens of a stretch of text. *)
Definition scanned (s : jsstring) : list token :=
  match scan Data s with
  | Some (tokens, _) => tokens
  | None => []
  end.

(** ** Number formatting *)

(** [\w]: a letter, a digit or the underscore. *)
Definition isWordChar (c : char) : bool :=
  let n := Z.of_N c in
  isDigit c || ((65 <=? n) && (n <=? 90)) || ((97 <=? n) && (n <=? 122))
  || (n =? 95).

Definition isWord (c : option char) : bool :=
  match c with
  | Some x => isWordChar x
  | None => false
  end.

(** [\B] between two neighbours, a missing neighbour being no word
    character: no word boundary. *)
Definition nonWordBoundary (prev next : option char) : bool :=
  Bool.eqb (isWord prev) (isWord next).

(** [(?!\d)] *)
Definition noDigitNext (s : jsstring) : bool :=
  match s with
  | [] => true
  | c :: _ => negb (isDigit c)
  end.

(** [(\d{3})+(?!\d)] at the start of [s]: three digits, then either no digit
    or the same again. *)
Fixpoint threes (s : jsstring) : bool :=
  match s with
  | a :: b :: c :: rest =>
      isDigit a && isDigit b && isDigit c && (noDigitNext rest || threes rest)
  | _ => false
  end.

Definition comma : char := 44%N.

(** [replace(/\B(?=(\d{3})+(?!\d))/g, ',')] from a position on, [prev] being
    the character before it: the pattern matches the empty string, so a
    comma goes in wherever it matches and every character stays. *)
Fixpoint insertCommas (prev : option char) (s : jsstring) : jsstring :=
  let here :=
    if nonWordBoundary prev (List.hd_error s) && threes s then [comma] else [] in
  match s with
  | [] => here
  | c :: t => here ++ c :: insertCommas (Some c) t
  end.

(** [formatNumber(num)], on the text that [num.toString()] gives. *)
Definition formatNumber (num : jsstring) : jsstring := insertCommas None num.

Definition removeCommas (s : jsstring) : jsstring :=
  filter (fun c => negb (char_eqb c comma)) s.

(** ** Modals and keys *)

(** [querySelectorAll(selector).forEach(e => e.remove())] on a subtree, for
    a selector that looks at the class list. *)
Fixpoint remove_selected (sel : list jsstring -> bool) (n : node) : list node :=
  match n with
  | TextNode _ => [n]
  | Element tag cl kids =>
      if sel cl then []
      else [Element tag cl (flat_map (remove_selected sel) kids)]
  end.

Definition modal : jsstring := str "modal".

(** [.modal, .alert-toast] *)
Definition modal_or_toast (classList : list jsstring) : bool :=
  hasClass modal classList || hasClass toast classList.

Definition closeAllModals (doc : document) : document :=
  match doc with
  | Some root =>
      match remove_selected modal_or_toast root with
      | r :: _ => Some r
      | [] => None
      end
  | None => None
  end.

Record KeyboardEvent : Type := mkKey {
  key : jsstring;
  ctrlKey : bool;
  metaKey : bool
}.

(** What the [keydown] listener works on: the document, the address the
    window is sent to and whether the default action was prevented. *)
Record Window : Type := mkWindow {
  page : document;
  href : jsstring;
  defaultPrevented : bool
}.

(** The [keydown] listener of [initializeAccessibility]. *)
Definition onKeydown (e : KeyboardEvent) (w : Window) : Window :=
  let w1 :=
    if jsstring_eqb (key e) (str "Escape")
    then mkWindow (closeAllModals (page w)) (href w) (defaultPrevented w)
    else w in
  if ctrlKey e || metaKey e then
    if jsstring_eqb (key e) (str "h")
    then mkWindow (page w1) (str "/history") true
    else if jsstring_eqb (key e) (str "n")
    then mkWindow (page w1) (str "/assessment") true
    else if jsstring_eqb (key e) (str "d")
    then mkWindow (page w1) (str "/dashboard") true
    else w1
  else w1.

(** ** Error messages in the page *)

Module Dom.

Definition error : jsstring := str "error".
Definition error_message : jsstring := str "error-message".

(** [classList.add(c)] *)
Definition classList_add (c : jsstring) (cl : list jsstring) : list jsstring :=
  if hasClass c cl then cl else cl ++ [c].

(** [classList.remove(c)] *)
Definition classList_remove (c : jsstring) (cl : list jsstring) : list jsstring :=
  filter (fun x => negb (jsstring_eqb c x)) cl.

(** [querySelector('.' + c)] on a subtree, the element found being removed:
    the first element of the class in document order, the node itself
    included.  [None]: there is none; otherwise what is left of the
    subtree. *)
Fixpoint remove_first (c : jsstring) (n : node) : option (list node) :=
  match n with
  | TextNode _ => None
  | Element tag cl kids =>
      if hasClass c cl then Some []
      else
        match (fix among (ks : list node) : option (list node) :=
                 match ks with
                 | [] => None
                 | k :: rest =>
                     match remove_first c k with
                     | Some r => Some (r ++ rest)
                     | None => option_map (cons k) (among rest)
                     end
                 end) kids with
        | Some kids' => Some [Element tag cl kids']
        | None => None
        end
  end.

(** The same on a run of siblings. *)
Fixpoint remove_first_among (c : jsstring) (ks : list node)
  : option (list node) :=
  match ks with
  | [] => None
  | k :: rest =>
      match remove_first c k with
      | Some r => Some (r ++ rest)
      | None => option_map (cons k) (remove_first_among c rest)
      end
  end.

(** A form control in the page: its tag, class list and children, and the
    children of its parent that come before and after it ([None]: the
    control has no parent). *)
Record FieldDom : Type := mkFieldDom {
  tagName : string;
  classList : list jsstring;
  childNodes : list node;
  parentNode : option (list node * list node)
}.

Definition fieldNode (d : FieldDom) : node :=
  Element (tagName d) (classList d) (childNodes d).

(** [const e = field.parentNode.querySelector('.error-message');
    if (e) e.remove();]: the parent's descendants are searched in document
    order, the control among them; the call throws when there is no
    parent. *)
Definition removeErrorMessage (d : FieldDom) : outcome FieldDom :=
  match parentNode d with
  | None => Throws
  | Some (before, after) =>
      match remove_first_among error_message before with
      | Some before' =>
          Returns (mkFieldDom (tagName d) (classList d) (childNodes d)
                     (Some (before', after)))
      | None =>
          if hasClass error_message (classList d)
          then Returns (mkFieldDom (tagName d) (classList d) (childNodes d) None)
          else
            match remove_first_among error_message (childNodes d) with
            | Some kids' =>
                Returns (mkFieldDom (tagName d) (classList d) kids'
                           (Some (before, after)))
            | None =>
                match remove_first_among error_message after with
                | Some after' =>
                    Returns (mkFieldDom (tagName d) (classList d) (childNodes d)
                               (Some (before, after')))
                | None => Returns d
                end
            end
      end
  end.

(** The [div] that [showFieldError] creates: [textContent] makes a text
    node unless the text is empty. *)
Definition errorDiv (message : jsstring) : node :=
  Element "div" [error_message]
    (match message with [] => [] | _ => [TextNode message] end).

Definition clearFieldError (d : FieldDom) : outcome FieldDom :=
  removeErrorMessage
    (mkFieldDom (tagName d) (classList_remove error (classList d))
       (childNodes d) (parentNode d)).

Definition showFieldError (message : jsstring) (d : FieldDom)
  : outcome FieldDom :=
  match removeErrorMessage
          (mkFieldDom (tagName d) (classList_add error (classList d))
             (childNodes d) (parentNode d)) with
  | Throws => Throws
  | Returns d1 =>
      match parentNode d1 with
      | None => Throws
      | Some (before, after) =>
          Returns (mkFieldDom (tagName d1) (classList d1) (childNodes d1)
                     (Some (before, after ++ [errorDiv message])))
      end
  end.

(** The elements of class [error-message] below the parent of the
    control. *)
Definition errorMessages (d : FieldDom) : nat :=
  match parentNode d with
  | None => 0%nat
  | Some (before, after) =>
      (count_forest error_message before
       + count_class error_message (fieldNode d)
       + count_forest error_message after)%nat
  end.

End Dom.

(** The text of an error, [number_text] being the text of a number in a
    template. *)
Definition render (number_text : number -> jsstring) (m : message) : jsstring :=
  flat_map (fun p => match p with
                     | Text s => str s
                     | Num n => number_text n
                     end) m.

(** The calls that [validateField] records, made on the control in the
    page (the calls on the event and the alert do not concern it). *)
Fixpoint perform_on (number_text : number -> jsstring) (cs : list call)
    (d : Dom.FieldDom) : outcome Dom.FieldDom :=
  match cs with
  | [] => Returns d
  | c :: rest =>
      match
        match c with
        | clearFieldError _ => Dom.clearFieldError d
        | showFieldError _ m => Dom.showFieldError (render number_text m) d
        | preventDefault | callShowAlert _ _ => Returns d
        end
      with
      | Returns d' => perform_on number_text rest d'
      | Throws => Throws
      end
  end.

(** A control that has a parent and is not itself of class
    [error-message]. *)
Definition in_place (d : Dom.FieldDom) : Prop :=
  Dom.parentNode d <> None
  /\ hasClass Dom.error_message (Dom.classList d) = false.

(** An input after its label, with nothing shown yet. *)
Definition sample_control : Dom.FieldDom :=
  Dom.mkFieldDom "input" [str "form-control"] []
    (Some ([Element "label" [] [TextNode (str "Age")]], [])).

(** The same input with an error shown. *)
Definition sample_control_in_error : Dom.FieldDom :=
  Dom.mkFieldDom "input" [str "form-control"; Dom.error] []
    (Some ([Element "label" [] [TextNode (str "Age")]],
           [Dom.errorDiv (str "This field is required")])).

(** A stand-in for the text of a number in a template. *)
Definition no_number_text (n : number) : jsstring := str "?".

(** An optional text input left with blanks only. *)
Definition blank_optional : Field :=
  mkField (str "   ") (str "text") (str "notes") false None None.

Definition email_input (value : string) : Field :=
  mkField (str value) (str "email") (str "email") true None None.

(** The three names that [validateField] checks by name. *)
Definition checked_by_name (name : jsstring) : bool :=
  jsstring_eqb name (str "age") || jsstring_eqb name (str "bmi")
  || jsstring_eqb name (str "avg_glucose_level").

(** A page with a form, a modal dialog and a toast in its body. *)
Definition page_with_modal : document :=
  Some (Element "html" []
          [ Element "head" [] [];
            Element "body" []
              [ Element "form" [] [];
                Element "div" [modal] [Element "div" [toast] []];
                Element "div" [str "alert"; toast] [] ] ]).

(** ** Debounce and throttle

    What happens to a debounced or throttled function, in the order it
    happens: it is called with some arguments, or a timer it has set runs
    out.  Time itself is left out: a timer may run out at any later moment
    (an [Expire] with no timer set does nothing). *)

Section Timers.

Variable A : Type.

Inductive timed : Type :=
| Invoke (args : A)
| Expire.

(** [debounce(func, wait)]: the state is the timer that [timeout] names, if
    it has not run out, with the arguments its [later] holds.  A call
    clears it and sets a new one; when it runs out [func] is called.  The
    result lists the calls of [func]. *)
Definition debounce_step (timeout : option A) (e : timed)
  : option A * list A :=
  match e with
  | Invoke args => (Some args, [])
  | Expire =>
      match timeout with
      | Some args => (None, [args])
      | None => (None, [])
      end
  end.

Fixpoint debounce (timeout : option A) (es : list timed) : list A :=
  match es with
  | [] => []
  | e :: rest =>
      let (timeout', ran) := debounce_step timeout e in
      ran ++ debounce timeout' rest
  end.

(** The arguments of the calls that an expiry follows at once. *)
Fixpoint settled (es : list timed) : list A :=
  match es with
  | Invoke args :: (Expire :: _) as rest => args :: settled rest
  | _ :: rest => settled rest
  | [] => []
  end.

(** [throttle(func, limit)]: [inThrottle] and the number of timers set and
    not yet run out.  A call outside the throttle calls [func], enters the
    throttle and sets a timer; a timer that runs out leaves it. *)
Definition throttle_step (s : bool * nat) (e : timed) : (bool * nat) * list A :=
  let (inThrottle, timers) := s in
  match e with
  | Invoke args =>
      if negb inThrottle then ((true, S timers), [args]) else (s, [])
  | Expire =>
      match timers with
      | S n => ((false, n), [])
      | O => (s, [])
      end
  end.

Fixpoint throttle (s : bool * nat) (es : list timed) : list A :=
  match es with
  | [] => []
  | e :: rest =>
      let (s', ran) := throttle_step s e in
      ran ++ throttle s' rest
  end.

Definition expiries (es : list timed) : nat :=
  List.length (filter (fun e => match e with Expire => true | _ => false end) es).

End Timers.

Arguments Invoke {A} args.
Arguments Expire {A}.
Arguments debounce {A} timeout es.
Arguments settled {A} es.
Arguments throttle {A} s es.
Arguments expiries {A} es.

(** ** Navigation highlighting *)

Record NavLink : Type := mkLink {
  link_href : option jsstring;
  link_classes : list jsstring
}.

Definition active : jsstring := str "active".

(** The first loop of [initializeNavigation] over the links of the
    navigation: [getAttribute('href')] is [None] for a link without the
    attribute. *)
Definition initializeNavigation (currentPath : jsstring)
    (navLinks : list NavLink) : list NavLink :=
  List.map
    (fun link =>
       if match link_href link with
          | Some h => jsstring_eqb h currentPath
          | None => false
          end
       then mkLink (link_href link) (Dom.classList_add active (link_classes link))
       else link)
    navLinks.

(** * Properties *)

(** ** Patterns *)

Lemma nullable_lang (r : regex) : nullable r = true <-> lang r [].
Proof.
  induction r; simpl.
  - split; [discriminate | tauto].
  - split; auto.
  - split; [discriminate | intros (c & H & _); discriminate].
  - rewrite andb_true_iff, IHr1, IHr2. split.
    + intros [H1 H2]. exists [], []. auto.
    + intros (u & v & E & H1 & H2). symmetry in E.
      apply app_eq_nil in E. destruct E; subst. auto.
  - rewrite orb_true_iff, IHr1, IHr2. tauto.
  - split; [intros _; constructor | auto].
Qed.

Lemma star_cons_inv (L : jsstring -> Prop) (c : char) (s : jsstring) :
  star L (c :: s) -> exists u v, s = u ++ v /\ L (c :: u) /\ star L v.
Proof.
  intros H. remember (c :: s) as w eqn:E. revert c s E.
  induction H as [| u v Hu Hv IH]; intros c s E; [discriminate |].
  destruct u as [| x u'].
  - simpl in E. apply IH. exact E.
  - simpl in E. injection E as -> <-. exists u', v. auto.
Qed.

Lemma deriv_lang (r : regex) :
  forall c s, lang (deriv c r) s <-> lang r (c :: s).
Proof.
  induction r; intros c s; simpl.
  - tauto.
  - split; [tauto | discriminate].
  - destruct (p c) eqn:Hp; simpl.
    + split.
      * intros ->. exists c. auto.
      * intros (x & E & _). injection E as _ E. exact E.
    + split; [tauto |].
      intros (x & E & Hx). injection E as <- _. congruence.
  - assert (Hseq : lang (Seq (deriv c r1) r2) s <->
                   exists u v, s = u ++ v /\ lang r1 (c :: u) /\ lang r2 v).
    { simpl. split; intros (u & v & E & H1 & H2); exists u, v;
        (split; [exact E | split; [apply IHr1; exact H1 | exact H2]]). }
    destruct (nullable r1) eqn:Hn.
    + change (lang (Seq (deriv c r1) r2) s \/ lang (deriv c r2) s <->
              exists u v, c :: s = u ++ v /\ lang r1 u /\ lang r2 v).
      rewrite Hseq, IHr2. split.
      * intros [(u & v & E & H1 & H2) | H2].
        -- exists (c :: u), v. subst. auto.
        -- exists [], (c :: s). apply nullable_lang in Hn. auto.
      * intros (u & v & E & H1 & H2). destruct u as [| x u'].
        -- right. simpl in E. subst. exact H2.
        -- left. simpl in E. injection E as <- ->. exists u', v. auto.
    + rewrite Hseq. split.
      * intros (u & v & E & H1 & H2). exists (c :: u), v. subst. auto.
      * intros (u & v & E & H1 & H2). destruct u as [| x u'].
        -- apply nullable_lang in H1. congruence.
        -- simpl in E. injection E as <- ->. exists u', v. auto.
  - rewrite IHr1, IHr2. tauto.
  - split.
    + intros (u & v & E & H1 & H2). subst.
      apply (star_app (lang r) (c :: u) v); [apply IHr; exact H1 | exact H2].
    + intros H. apply star_cons_inv in H.
      destruct H as (u & v & E & H1 & H2). exists u, v.
      split; [exact E | split; [apply IHr; exact H1 | exact H2]].
Qed.

Lemma test_lang (s : jsstring) : forall r, test r s = true <-> lang r s.
Proof.
  induction s as [| c t IH]; intros r; simpl.
  - apply nullable_lang.
  - rewrite IH. apply deriv_lang.
Qed.

Lemma star_class (p : char -> bool) (s : jsstring) :
  star (lang (Class p)) s <-> Forall (fun c => p c = true) s.
Proof.
  split.
  - induction 1 as [| u v (c & -> & Hc) _ IH]; constructor; auto.
  - induction 1 as [| c t Hc _ IH]; [constructor |].
    apply (star_app _ [c] t); [exists c; auto | exact IH].
Qed.

Lemma plus_class (p : char -> bool) (s : jsstring) :
  lang (Plus (Class p)) s <-> s <> [] /\ Forall (fun c => p c = true) s.
Proof.
  unfold Plus. simpl. split.
  - intros (u & v & -> & (c & -> & Hc) & Hv). apply star_class in Hv.
    split; [discriminate | constructor; auto].
  - intros [Hne H]. destruct s as [| c t]; [congruence |].
    inversion H; subst. exists [c], t.
    split; [reflexivity | split; [exists c; auto | apply star_class; auto]].
Qed.

Lemma notSpaceAt_plain (c : char) : notSpaceAt c = true <-> plain c.
Proof.
  unfold notSpaceAt, plain, char_eqb, at_sign.
  rewrite andb_true_iff, !negb_true_iff, N.eqb_neq. tauto.
Qed.

Lemma Forall_notSpaceAt (s : jsstring) :
  Forall (fun c => notSpaceAt c = true) s <-> Forall plain s.
Proof.
  split; apply Forall_impl; intros c; apply notSpaceAt_plain.
Qed.

Lemma lang_isChar (x : char) (s : jsstring) :
  lang (Class (isChar x)) s <-> s = [x].
Proof.
  simpl. unfold isChar, char_eqb. split.
  - intros (c & -> & Hc). apply N.eqb_eq in Hc. subst. reflexivity.
  - intros ->. exists x. split; [reflexivity | apply N.eqb_refl].
Qed.

Lemma isValidEmail_shape (s : jsstring) :
  isValidEmail s = true <-> email_shape s.
Proof.
  unfold isValidEmail. rewrite test_lang. unfold emailRegex, email_shape.
  split.
  - intros (a & r1 & -> & Ha & x & r2 & -> & Hx & b & r3 & -> & Hb
            & y & c & -> & Hy & Hc).
    apply lang_isChar in Hx, Hy. subst x y.
    apply plus_class in Ha, Hb, Hc.
    destruct Ha as [Ha1 Ha2], Hb as [Hb1 Hb2], Hc as [Hc1 Hc2].
    apply Forall_notSpaceAt in Ha2, Hb2, Hc2.
    exists a, b, c. simpl. repeat split; auto.
  - intros (a & b & c & -> & Ha & Hb & Hc & Fa & Fb & Fc).
    apply Forall_notSpaceAt in Fa, Fb, Fc.
    exists a, (at_sign :: b ++ full_stop :: c).
    split; [reflexivity |]. split; [apply plus_class; auto |].
    exists [at_sign], (b ++ full_stop :: c).
    split; [reflexivity |]. split; [apply lang_isChar; reflexivity |].
    exists b, (full_stop :: c).
    split; [reflexivity |]. split; [apply plus_class; auto |].
    exists [full_stop], c.
    split; [reflexivity |]. split; [apply lang_isChar; reflexivity |].
    apply plus_class; auto.
Qed.

Lemma email_shape_no_space (s : jsstring) :
  email_shape s -> Forall (fun c => isWhiteSpace c = false) s.
Proof.
  intros (a & b & c & -> & _ & _ & _ & Fa & Fb & Fc).
  assert (P : forall l, Forall plain l ->
                        Forall (fun c => isWhiteSpace c = false) l).
  { intros l. apply Forall_impl. intros x [Hx _]. exact Hx. }
  apply Forall_app. split; [auto |].
  constructor; [reflexivity |].
  apply Forall_app. split; [auto |].
  constructor; [reflexivity | auto].
Qed.

Lemma split_at_unique (x : char) (a r : jsstring) :
  ~ In x a -> ~ In x r ->
  forall pre post, a ++ x :: r = pre ++ x :: post -> pre = a /\ post = r.
Proof.
  intros Ha Hr. induction a as [| y a' IH]; intros pre post E.
  - destruct pre as [| z pre']; simpl in E.
    + injection E as E. auto.
    + injection E as <- E. exfalso. apply Hr. rewrite E.
      apply in_or_app. right. left. reflexivity.
  - destruct pre as [| z pre']; simpl in E.
    + injection E as <- _. exfalso. apply Ha. left. reflexivity.
    + injection E as <- E.
      destruct (IH (fun H => Ha (or_intror H)) pre' post E) as [-> ->]. auto.
Qed.

Lemma plain_not_at (l : jsstring) : Forall plain l -> ~ In at_sign l.
Proof.
  intros F H. rewrite Forall_forall in F. destruct (F _ H) as [_ N]. congruence.
Qed.

Lemma not_true_false (b : bool) : b <> true -> b = false.
Proof. destruct b; congruence. Qed.

(** C10.  [isValidEmail] accepts exactly the strings made of one or more
    characters that are neither white space nor [@], a single [@], one or
    more such characters, a [.] and one or more such characters.  In
    particular a string with a white-space character, a string without [@],
    and a string with no [.] after an [@] are all rejected. *)
Theorem isValidEmail_spec (s : jsstring) :
  (isValidEmail s = true <-> email_shape s)
  /\ ((exists c, In c s /\ isWhiteSpace c = true) -> isValidEmail s = false)
  /\ (~ In at_sign s -> isValidEmail s = false)
  /\ (forall pre post, s = pre ++ at_sign :: post -> ~ In full_stop post ->
      isValidEmail s = false).
Proof.
  split; [apply isValidEmail_shape |]. split; [| split].
  - intros (c & Hin & Hc). apply not_true_false. intros H.
    apply isValidEmail_shape, email_shape_no_space in H.
    rewrite Forall_forall in H. specialize (H c Hin). congruence.
  - intros Hno. apply not_true_false. intros H.
    apply isValidEmail_shape in H. destruct H as (a & b & c & -> & _).
    apply Hno, in_or_app. right. left. reflexivity.
  - intros pre post E Hno. apply not_true_false. intros H.
    apply isValidEmail_shape in H.
    destruct H as (a & b & c & E' & _ & _ & _ & Fa & Fb & Fc).
    rewrite E' in E.
    assert (Hr : ~ In at_sign (b ++ full_stop :: c)).
    { intros Hin. apply in_app_or in Hin. destruct Hin as [Hin | [Hin | Hin]].
      - exact (plain_not_at b Fb Hin).
      - discriminate.
      - exact (plain_not_at c Fc Hin). }
    destruct (split_at_unique at_sign a _ (plain_not_at a Fa) Hr pre post E)
      as [_ ->].
    apply Hno, in_or_app. right. left. reflexivity.
Qed.

Lemma isValidEmail_spec_witness :
  isValidEmail (str "ann@mail.org") = true
  /\ isValidEmail (str "ann mail@x.org") = false
  /\ isValidEmail (str "ann.mail.org") = false
  /\ isValidEmail (str "ann@mailorg") = false.
Proof.
  split; [reflexivity |].
  split.
  - apply (proj1 (proj2 (isValidEmail_spec (str "ann mail@x.org")))).
    exists 32%N. split; [vm_compute; tauto | reflexivity].
  - split.
    + apply (proj1 (proj2 (proj2 (isValidEmail_spec (str "ann.mail.org"))))).
      vm_compute. intuition discriminate.
    + apply (proj2 (proj2 (proj2 (isValidEmail_spec (str "ann@mailorg"))))
               (str "ann") (str "mailorg")); [reflexivity |].
      vm_compute. intuition discriminate.
Defined.

(** ** Comparisons of numbers *)

Lemma Qltb_lt (x y : Q) : Qltb x y = true <-> (x < y)%Q.
Proof.
  unfold Qltb. rewrite negb_true_iff. split.
  - intros H. apply Qnot_le_lt. intros L. apply Qle_bool_iff in L. congruence.
  - intros H. apply not_true_false. intros L. apply Qle_bool_iff in L.
    exact (Qlt_not_le _ _ H L).
Qed.

Lemma Qltb_ge (x y : Q) : Qltb x y = false <-> (y <= x)%Q.
Proof.
  unfold Qltb. rewrite negb_false_iff. apply Qle_bool_iff.
Qed.

Lemma out_of_range_between (lo hi : Z) (x : number) :
  isNaN x = false ->
  (lt x (of_Z lo) || gt x (of_Z hi) = false <-> between lo hi x).
Proof.
  intros Hn. destruct x as [| neg | q]; simpl in *.
  - discriminate.
  - destruct neg; simpl; split; (discriminate || tauto).
  - unfold gt, of_Z. simpl. rewrite orb_false_iff, !Qltb_ge. tauto.
Qed.

(** ** Rounding of integers *)

Lemma round_nearest_even_one (n : Z) : round_nearest_even n 1 = n.
Proof.
  unfold round_nearest_even. rewrite Z.div_1_r, Z.mod_1_r. reflexivity.
Qed.

Lemma round_nearest_even_lower (n d : Z) :
  0 < d -> n / d <= round_nearest_even n d.
Proof.
  intros Hd. unfold round_nearest_even.
  destruct (2 * (n mod d) ?= d); [destruct (Z.even (n / d)) | |]; lia.
Qed.

Lemma round64_pos_integer (negative : bool) (n : Z) :
  0 < n ->
  (n < 2 ^ 52 ->
   exists q, round64_pos negative n 1 = Finite q
             /\ (q == inject_Z (if negative then - n else n))%Q)
  /\ (2 ^ 52 <= n ->
      round64_pos negative n 1 = Infinity negative
      \/ exists k, 2 ^ 52 <= k
                   /\ round64_pos negative n 1
                      = Finite (inject_Z (if negative then - k else k))).
Proof.
  intros Hn.
  pose proof (Z.log2_spec n Hn) as [Hlo Hhi].
  pose proof (Z.log2_nonneg n) as HL.
  unfold round64_pos.
  change (Z.log2 1) with 0. rewrite Z.sub_0_r.
  destruct (Z.leb_spec 0 (Z.log2 n)) as [_ | H]; [| lia].
  rewrite Z.mul_1_l.
  destruct (Z.leb_spec (2 ^ Z.log2 n) n) as [_ | H]; [| lia].
  rewrite Z.max_l by lia.
  set (L := Z.log2 n) in *.
  split.
  - intros Hsmall.
    assert (HL52 : L < 52).
    { apply (Z.pow_lt_mono_r_iff 2); lia. }
    destruct (Z.leb_spec 0 (L - 52)) as [H | _]; [lia |].
    rewrite round_nearest_even_one.
    destruct (Z.ltb_spec 971 (L - 52)) as [H | _]; [lia |].
    destruct (Z.eqb_spec (L - 52) 971) as [H | _]; [lia |].
    simpl orb. cbv iota.
    eexists. split; [reflexivity |].
    unfold scale2. destruct (Z.leb_spec 0 (L - 52)) as [H | _]; [lia |].
    rewrite Qred_correct. unfold Qeq, inject_Z. simpl.
    assert (Hp : 0 < 2 ^ (- (L - 52))) by (apply Z.pow_pos_nonneg; lia).
    rewrite Z2Pos.id by exact Hp.
    destruct negative; lia.
  - intros Hbig.
    assert (HL52 : 52 <= L).
    { destruct (Z.le_gt_cases 52 L) as [H | H]; [exact H |].
      assert (2 ^ (Z.succ L) <= 2 ^ 52) by (apply Z.pow_le_mono_r; lia). lia. }
    destruct (Z.leb_spec 0 (L - 52)) as [_ | H]; [| lia].
    rewrite Z.mul_1_l.
    set (m := round_nearest_even n (2 ^ (L - 52))).
    assert (Hpe : 0 < 2 ^ (L - 52)) by (apply Z.pow_pos_nonneg; lia).
    assert (Hm : 2 ^ 52 <= m).
    { eapply Z.le_trans; [| apply round_nearest_even_lower; exact Hpe].
      apply Z.div_le_lower_bound; [exact Hpe |].
      rewrite <- Z.pow_add_r by lia.
      replace (L - 52 + 52) with L by lia. exact Hlo. }
    destruct ((971 <? L - 52) || ((L - 52 =? 971) && (m =? 2 ^ 53)));
      [left; reflexivity | right].
    exists (m * 2 ^ (L - 52)). split.
    + assert (m * 1 <= m * 2 ^ (L - 52)) by (apply Z.mul_le_mono_nonneg_l; lia).
      lia.
    + unfold scale2. destruct (Z.leb_spec 0 (L - 52)) as [_ | H]; [| lia].
      destruct negative; [rewrite Z.mul_opp_l |]; reflexivity.
Qed.

(** An integer is rounded to a number within integer bounds of less than 53
    bits exactly when it lies within them itself. *)
Lemma round64_integer_between (lo hi n : Z) :
  - 2 ^ 52 < lo -> hi < 2 ^ 52 ->
  (between lo hi (round64 (inject_Z n)) <-> lo <= n <= hi).
Proof.
  intros Hlo Hhi. unfold round64. simpl Qnum. simpl Qden.
  destruct n as [| p | p].
  - simpl. unfold Qle. simpl. lia.
  - destruct (round64_pos_integer false (Z.pos p) (Pos2Z.is_pos p)) as [Hs Hb].
    destruct (Z.lt_ge_cases (Z.pos p) (2 ^ 52)) as [H | H].
    + destruct (Hs H) as (q & -> & Hq). simpl. rewrite Hq.
      rewrite <- !Zle_Qle. reflexivity.
    + destruct (Hb H) as [-> | (k & Hk & ->)]; simpl.
      * split; [tauto | lia].
      * rewrite <- !Zle_Qle. lia.
  - destruct (round64_pos_integer true (Z.pos p) (Pos2Z.is_pos p)) as [Hs Hb].
    destruct (Z.lt_ge_cases (Z.pos p) (2 ^ 52)) as [H | H].
    + destruct (Hs H) as (q & -> & Hq). simpl. rewrite Hq.
      rewrite <- !Zle_Qle. change (Z.neg p) with (- Z.pos p). reflexivity.
    + destruct (Hb H) as [-> | (k & Hk & ->)]; simpl.
      * split; [tauto | lia].
      * rewrite <- !Zle_Qle. lia.
Qed.

Lemma round64_integer_number (n : Z) : isNaN (round64 (inject_Z n)) = false.
Proof.
  unfold round64. simpl Qnum. simpl Qden.
  destruct n as [| p | p]; [reflexivity | |].
  - destruct (round64_pos_integer false (Z.pos p) (Pos2Z.is_pos p)) as [Hs Hb].
    destruct (Z.lt_ge_cases (Z.pos p) (2 ^ 52)) as [H | H].
    + destruct (Hs H) as (q & -> & _). reflexivity.
    + destruct (Hb H) as [-> | (k & _ & ->)]; reflexivity.
  - destruct (round64_pos_integer true (Z.pos p) (Pos2Z.is_pos p)) as [Hs Hb].
    destruct (Z.lt_ge_cases (Z.pos p) (2 ^ 52)) as [H | H].
    + destruct (Hs H) as (q & -> & _). reflexivity.
    + destruct (Hb H) as [-> | (k & _ & ->)]; reflexivity.
Qed.

(** ** Field validation *)

Lemma result_bind {A B} (m : M A) (k : A -> M B) :
  result (bind m k) = result (k (result m)).
Proof.
  unfold bind, result. destruct m as [a l1]. simpl.
  destruct (k a) as [b l2]. reflexivity.
Qed.

Lemma calls_bind {A B} (m : M A) (k : A -> M B) :
  calls (bind m k) = calls m ++ calls (k (result m)).
Proof.
  unfold bind, calls, result. destruct m as [a l1]. simpl.
  destruct (k a) as [b l2]. reflexivity.
Qed.

Lemma validateField_first_error (field : Field) :
  validateField field =
  match first_error field with
  | Some m => (false, [clearFieldError field; showFieldError field m])
  | None => (true, [clearFieldError field])
  end.
Proof.
  unfold validateField, first_error, reject, perform, ret, bind.
  destruct (required field && negb (truthy_string (trim (field_value field))));
    [reflexivity |].
  destruct (type_specific field (trim (field_value field))); [reflexivity |].
  repeat match goal with
         | |- context [if ?c then _ else _] => destruct c; try reflexivity
         end.
Qed.

Lemma validateField_accepts (field : Field) :
  result (validateField field) = true <-> first_error field = None.
Proof.
  rewrite validateField_first_error.
  destruct (first_error field); simpl; split; congruence.
Qed.

Lemma validateField_rejects (field : Field) :
  result (validateField field) = false <->
  exists m, first_error field = Some m.
Proof.
  rewrite validateField_first_error.
  destruct (first_error field) as [m |]; simpl; split;
    try congruence; eauto.
  intros (m & H). discriminate.
Qed.

Lemma validateField_shows (field : Field) (m : message) :
  first_error field = Some m ->
  validateField field = (false, [clearFieldError field; showFieldError field m]).
Proof.
  intros H. rewrite validateField_first_error, H. reflexivity.
Qed.

Lemma truthy_string_nonempty (s : jsstring) : s <> [] -> truthy_string s = true.
Proof. destruct s; [congruence | reflexivity]. Qed.

Lemma jsstring_eqb_refl (s : jsstring) : jsstring_eqb s s = true.
Proof.
  induction s as [| c t IH]; [reflexivity |].
  simpl. unfold char_eqb. rewrite N.eqb_refl. exact IH.
Qed.

Lemma jsstring_eqb_eq (a b : jsstring) : jsstring_eqb a b = true <-> a = b.
Proof.
  split; [| intros ->; apply jsstring_eqb_refl].
  revert b. induction a as [| x a' IH]; intros [| y b']; simpl; try discriminate.
  - reflexivity.
  - unfold char_eqb. rewrite andb_true_iff, N.eqb_eq.
    intros [-> H]. f_equal. apply IH. exact H.
Qed.

Lemma first_error_age (field : Field) :
  field_name field = str "age" ->
  trim (field_value field) <> [] ->
  first_error field =
  match type_specific field (trim (field_value field)) with
  | Some m => Some m
  | None => if age_out_of_range (trim (field_value field))
            then Some [Text "Please enter a valid age (0-120)"] else None
  end.
Proof.
  intros Hname Hval. unfold first_error.
  rewrite (truthy_string_nonempty _ Hval), andb_false_r.
  name_is Hname. simpl. reflexivity.
Qed.

Lemma first_error_bmi (field : Field) :
  field_name field = str "bmi" ->
  trim (field_value field) <> [] ->
  first_error field =
  match type_specific field (trim (field_value field)) with
  | Some m => Some m
  | None => if bmi_out_of_range (trim (field_value field))
            then Some [Text "Please enter a valid BMI (10-60)"] else None
  end.
Proof.
  intros Hname Hval. unfold first_error.
  rewrite (truthy_string_nonempty _ Hval), andb_false_r.
  name_is Hname. simpl. reflexivity.
Qed.

Lemma first_error_glucose (field : Field) :
  field_name field = str "avg_glucose_level" ->
  trim (field_value field) <> [] ->
  first_error field =
  match type_specific field (trim (field_value field)) with
  | Some m => Some m
  | None => if glucose_out_of_range (trim (field_value field))
            then Some [Text "Please enter a valid glucose level (50-500 mg/dL)"]
            else None
  end.
Proof.
  intros Hname Hval. unfold first_error.
  rewrite (truthy_string_nonempty _ Hval), andb_false_r.
  name_is Hname. simpl. reflexivity.
Qed.

(** A range check that comes after the checks of the input type. *)
Lemma range_check (lo hi : Z) (x : number) (m : message)
    (checked : option message) (field : Field) :
  isNaN x = false ->
  first_error field =
  match checked with
  | Some e => Some e
  | None => if lt x (of_Z lo) || gt x (of_Z hi) then Some m else None
  end ->
  (result (validateField field) = true <-> checked = None /\ between lo hi x)
  /\ (~ between lo hi x ->
      exists e, validateField field
                = (false, [clearFieldError field; showFieldError field e]))
  /\ (checked = None -> ~ between lo hi x ->
      validateField field
      = (false, [clearFieldError field; showFieldError field m])).
Proof.
  intros Hn Hfe. pose proof (out_of_range_between lo hi x Hn) as Hb.
  split; [| split].
  - rewrite validateField_accepts, Hfe.
    destruct checked as [e |].
    + split; [discriminate | intros [H _]; discriminate].
    + rewrite <- Hb.
      destruct (lt x (of_Z lo) || gt x (of_Z hi));
        split; (congruence || tauto || intros [_ H]; congruence).
  - intros Hout. destruct checked as [e |].
    + exists e. apply validateField_shows. exact Hfe.
    + exists m. apply validateField_shows. rewrite Hfe.
      destruct (lt x (of_Z lo) || gt x (of_Z hi)); [reflexivity |].
      exfalso. apply Hout, Hb. reflexivity.
  - intros -> Hout. apply validateField_shows. rewrite Hfe.
    destruct (lt x (of_Z lo) || gt x (of_Z hi)); [reflexivity |].
    exfalso. apply Hout, Hb. reflexivity.
Qed.

(** C2, as amended.  For a field named [age] whose trimmed value is not
    empty and begins with an integer that [parseInt] reads, [validateField]
    accepts exactly when the value passes the checks of its input type and
    that leading integer is between 0 and 120 inclusive; when the integer is
    outside that range an error is shown on the field and false is returned,
    the age error when the checks of the input type passed. *)
Theorem validateField_age (field : Field) :
  field_name field = str "age" ->
  trim (field_value field) <> [] ->
  isNaN (parseInt (trim (field_value field))) = false ->
  (result (validateField field) = true <->
   type_specific field (trim (field_value field)) = None
   /\ between 0 120 (parseInt (trim (field_value field))))
  /\ (~ between 0 120 (parseInt (trim (field_value field))) ->
      exists e, validateField field
                = (false, [clearFieldError field; showFieldError field e]))
  /\ (type_specific field (trim (field_value field)) = None ->
      ~ between 0 120 (parseInt (trim (field_value field))) ->
      validateField field
      = (false, [clearFieldError field;
                 showFieldError field [Text "Please enter a valid age (0-120)"]])).
Proof.
  intros Hname Hval Hn. apply range_check; [exact Hn |].
  apply first_error_age; assumption.
Qed.

(** C6, as amended.  For a field named [bmi] whose trimmed value is not
    empty and parses to a number, [validateField] accepts exactly when the
    value passes the checks of its input type and the parsed number is
    between 10 and 60 inclusive; when the number is below 10 or above 60 an
    error is shown on the field and false is returned, the BMI error when
    the checks of the input type passed. *)
Theorem validateField_bmi (field : Field) :
  field_name field = str "bmi" ->
  trim (field_value field) <> [] ->
  isNaN (parseFloat (trim (field_value field))) = false ->
  (result (validateField field) = true <->
   type_specific field (trim (field_value field)) = None
   /\ between 10 60 (parseFloat (trim (field_value field))))
  /\ (~ between 10 60 (parseFloat (trim (field_value field))) ->
      exists e, validateField field
                = (false, [clearFieldError field; showFieldError field e]))
  /\ (type_specific field (trim (field_value field)) = None ->
      ~ between 10 60 (parseFloat (trim (field_value field))) ->
      validateField field
      = (false, [clearFieldError field;
                 showFieldError field [Text "Please enter a valid BMI (10-60)"]])).
Proof.
  intros Hname Hval Hn. apply range_check; [exact Hn |].
  apply first_error_bmi; assumption.
Qed.

(** C5, as amended.  For a field named [avg_glucose_level] whose trimmed
    value is not empty and parses to a number, [validateField] accepts
    exactly when the value passes the checks of its input type and the
    parsed number is between 50 and 500 inclusive, both ends accepted; when
    the number is below 50 or above 500 an error is shown on the field and
    false is returned, the glucose error when the checks of the input type
    passed. *)
Theorem validateField_glucose (field : Field) :
  field_name field = str "avg_glucose_level" ->
  trim (field_value field) <> [] ->
  isNaN (parseFloat (trim (field_value field))) = false ->
  (result (validateField field) = true <->
   type_specific field (trim (field_value field)) = None
   /\ between 50 500 (parseFloat (trim (field_value field))))
  /\ (~ between 50 500 (parseFloat (trim (field_value field))) ->
      exists e, validateField field
                = (false, [clearFieldError field; showFieldError field e]))
  /\ (type_specific field (trim (field_value field)) = None ->
      ~ between 50 500 (parseFloat (trim (field_value field))) ->
      validateField field
      = (false, [clearFieldError field;
                 showFieldError field
                   [Text "Please enter a valid glucose level (50-500 mg/dL)"]])).
Proof.
  intros Hname Hval Hn. apply range_check; [exact Hn |].
  apply first_error_glucose; assumption.
Qed.

Lemma validateField_age_witness :
  result (validateField age_thirty) = true.
Proof.
  apply (proj1 (validateField_age age_thirty eq_refl
                  ltac:(vm_compute; discriminate) eq_refl)).
  split; [reflexivity |]. vm_compute. split; discriminate.
Defined.

(** C2, as worded, fails: [12.5] in the age field is accepted although it
    does not denote an integer. *)
Lemma age_claim_counterexample : ~ age_claim age_twelve_and_a_half.
Proof.
  intros H.
  assert (A : result (validateField age_twelve_and_a_half) = true)
    by (vm_compute; reflexivity).
  apply (H eq_refl ltac:(vm_compute; discriminate)) in A.
  destruct A as (n & E & _). vm_compute in E. discriminate.
Qed.

Lemma validateField_bmi_witness :
  result (validateField bmi_twenty_two) = true.
Proof.
  apply (proj1 (validateField_bmi bmi_twenty_two eq_refl
                  ltac:(vm_compute; discriminate) eq_refl)).
  split; [reflexivity |]. vm_compute. split; discriminate.
Defined.

(** C6, as worded, fails: 12 lies between 10 and 60, yet the [min] check of
    the number input rejects it. *)
Lemma bmi_claim_counterexample : ~ range_claim "bmi" 10 60 bmi_below_min.
Proof.
  intros H.
  assert (A : result (validateField bmi_below_min) = false)
    by (vm_compute; reflexivity).
  assert (B : result (validateField bmi_below_min) = true).
  { apply (H eq_refl ltac:(vm_compute; discriminate)).
    vm_compute. split; discriminate. }
  congruence.
Qed.

Lemma validateField_glucose_witness :
  result (validateField glucose_fifty) = true.
Proof.
  apply (proj1 (validateField_glucose glucose_fifty eq_refl
                  ltac:(vm_compute; discriminate) eq_refl)).
  split; [reflexivity |]. vm_compute. split; discriminate.
Defined.

(** C5, as worded, fails: 60 lies between 50 and 500, yet the [min] check of
    the number input rejects it. *)
Lemma glucose_claim_counterexample :
  ~ range_claim "avg_glucose_level" 50 500 glucose_below_min.
Proof.
  intros H.
  assert (A : result (validateField glucose_below_min) = false)
    by (vm_compute; reflexivity).
  assert (B : result (validateField glucose_below_min) = true).
  { apply (H eq_refl ltac:(vm_compute; discriminate)).
    vm_compute. split; discriminate. }
  congruence.
Qed.

(** Outside number inputs nothing tells a text from a number: [parseInt] and
    [parseFloat] give NaN, both comparisons are false, and the field is
    accepted. *)
Example not_a_number_accepted :
  result (validateField
            (mkField (str "abc") (str "text") (str "age") true None None))
  = true
  /\ result (validateField
               (mkField (str "abc") (str "text") (str "bmi") true None None))
     = true
  /\ result (validateField
               (mkField (str "abc") (str "text") (str "avg_glucose_level")
                  true None None))
     = true.
Proof. vm_compute. auto. Qed.

(** On a number input without [min] and [max] the range checks decide alone:
    a value that is not a number is refused by the input type already. *)
Lemma validateField_number_input (name : string) (lo hi : Z) (field : Field) :
  (name = "bmi"%string /\ lo = 10 /\ hi = 60
   \/ name = "avg_glucose_level"%string /\ lo = 50 /\ hi = 500) ->
  field_type field = str "number" ->
  attr_min field = None -> attr_max field = None ->
  range_claim name lo hi field.
Proof.
  intros Hcase Htype Hmin Hmax Hname Hval.
  assert (Hts : type_specific field (trim (field_value field)) =
                if isNaN (parseFloat (trim (field_value field)))
                then Some [Text "Please enter a valid number"] else None).
  { unfold type_specific. rewrite Htype, Hmin, Hmax.
    change (jsstring_eqb (str "number") (str "email")) with false.
    change (jsstring_eqb (str "number") (str "number")) with true.
    rewrite (truthy_string_nonempty _ Hval).
    change (parseFloat (attribute_text None)) with NaN. simpl.
    destruct (isNaN (parseFloat (trim (field_value field)))); reflexivity. }
  destruct (isNaN (parseFloat (trim (field_value field)))) eqn:Hn.
  - split.
    + intros A. apply validateField_accepts in A.
      unfold first_error in A. rewrite Hts in A.
      destruct (required field && _) in A; discriminate.
    + destruct (parseFloat (trim (field_value field))); simpl in *;
        (discriminate || tauto).
  - destruct Hcase as [(-> & -> & ->) | (-> & -> & ->)].
    + rewrite (proj1 (range_check 10 60 _ _ _ field Hn
                        (first_error_bmi field Hname Hval))).
      tauto.
    + rewrite (proj1 (range_check 50 500 _ _ _ field Hn
                        (first_error_glucose field Hname Hval))).
      tauto.
Qed.

(** The ends of the three ranges on number inputs: accepted on the bound,
    rejected just outside. *)
Example range_boundaries :
  List.map (fun f => result (validateField f))
    [ number_input "age" "0"; number_input "age" "120";
      number_input "age" "-1"; number_input "age" "121";
      number_input "bmi" "10"; number_input "bmi" "60";
      number_input "bmi" "9.99"; number_input "bmi" "60.01";
      number_input "avg_glucose_level" "50";
      number_input "avg_glucose_level" "500";
      number_input "avg_glucose_level" "49.9";
      number_input "avg_glucose_level" "500.1" ]
  = [ true; true; false; false;
      true; true; false; false;
      true; true; false; false ].
Proof. vm_compute. reflexivity. Qed.

(** What is compared is the parsed number: a text just below 50 that rounds
    to 50 as a binary64 value is accepted. *)
Example glucose_rounds_to_bound :
  parseFloat (str "49.99999999999999999999999") = Finite 50
  /\ result (validateField
               (mkField (str "49.99999999999999999999999") (str "number")
                  (str "avg_glucose_level") true None None))
     = true.
Proof. vm_compute. auto. Qed.

(** ** Integer literals *)

Lemma span_all (p : char -> bool) (s : jsstring) :
  forallb p s = true -> span p s = (s, []).
Proof.
  induction s as [| c t IH]; simpl; [reflexivity |].
  intros H. apply andb_true_iff in H. destruct H as [-> H].
  rewrite (IH H). reflexivity.
Qed.

Lemma isDigit_not_space (c : char) : isDigit c = true -> isWhiteSpace c = false.
Proof.
  unfold isDigit, isWhiteSpace. cbv zeta. intros H.
  apply andb_true_iff in H. destruct H as [H1 H2].
  apply Z.leb_le in H1, H2.
  repeat match goal with
         | |- context [?a <=? ?b] => destruct (Z.leb_spec a b)
         | |- context [?a =? ?b] => destruct (Z.eqb_spec a b)
         end; simpl; try reflexivity; lia.
Qed.

(** On a text that denotes an integer, [parseInt] gives that integer,
    rounded. *)
Lemma parseInt_integer_literal (s : jsstring) (n : Z) :
  integer_literal s = Some n -> parseInt s = round64 (inject_Z n).
Proof.
  unfold integer_literal, parseInt. intros H.
  assert (Hts : trimStart s = s).
  { destruct s as [| c t]; [reflexivity |]. simpl.
    unfold split_sign in H.
    destruct (char_eqb c 45) eqn:E1;
      [apply N.eqb_eq in E1; subst c; reflexivity |].
    destruct (char_eqb c 43) eqn:E2;
      [apply N.eqb_eq in E2; subst c; reflexivity |].
    destruct (forallb isDigit (c :: t)) eqn:F; [| discriminate].
    simpl in F. apply andb_true_iff in F. destruct F as [F _].
    rewrite (isDigit_not_space c F). reflexivity. }
  rewrite Hts. destruct (split_sign s) as [neg ds].
  destruct ds as [| a r]; [discriminate |].
  destruct (forallb isDigit (a :: r)) eqn:F; [| discriminate].
  injection H as <-.
  pose proof (span_all isDigit (a :: r) F) as Hspan.
  destruct r as [| b t].
  - change (10 =? 16) with false. cbv iota beta. rewrite Hspan. reflexivity.
  - assert (Fb : isDigit b = true).
    { simpl in F. apply andb_true_iff in F. destruct F as [_ F].
      apply andb_true_iff in F. destruct F as [Fb _]. exact Fb. }
    destruct (char_eqb b 120) eqn:E1;
      [apply N.eqb_eq in E1; subst b; discriminate |].
    destruct (char_eqb b 88) eqn:E2;
      [apply N.eqb_eq in E2; subst b; discriminate |].
    rewrite andb_false_r. change (10 =? 16) with false. cbv iota beta.
    rewrite Hspan. reflexivity.
Qed.

(** For a value that denotes an integer the age check decides as described:
    accepted, once the checks of the input type are passed, exactly when
    the integer is from 0 to 120. *)
Lemma validateField_age_integer (field : Field) (n : Z) :
  field_name field = str "age" ->
  integer_literal (trim (field_value field)) = Some n ->
  (result (validateField field) = true <->
   type_specific field (trim (field_value field)) = None /\ 0 <= n <= 120).
Proof.
  intros Hname Hlit.
  pose proof (parseInt_integer_literal _ _ Hlit) as Hp.
  assert (Hval : trim (field_value field) <> []).
  { intros E. rewrite E in Hlit. discriminate. }
  assert (Hb : between 0 120 (parseInt (trim (field_value field)))
               <-> 0 <= n <= 120).
  { rewrite Hp. apply round64_integer_between; reflexivity. }
  assert (Hn : isNaN (parseInt (trim (field_value field))) = false).
  { rewrite Hp. apply round64_integer_number. }
  rewrite <- Hb.
  apply (range_check 0 120 _ [Text "Please enter a valid age (0-120)"]
           (type_specific field (trim (field_value field))) field Hn).
  apply first_error_age; assumption.
Qed.

(** ** Passwords *)

Lemma first_error_password (field : Field) :
  field_type field = str "password" ->
  field_name field <> str "age" ->
  field_name field <> str "bmi" ->
  field_name field <> str "avg_glucose_level" ->
  first_error field =
  let value := trim (field_value field) in
  if required field && negb (truthy_string value)
  then Some [Text "This field is required"]
  else if truthy_string value && (Nat.ltb (List.length value) 6)
  then Some [Text "Password must be at least 6 characters long"]
  else None.
Proof.
  intros Htype Hage Hbmi Hglu. unfold first_error, type_specific.
  rewrite Htype.
  change (jsstring_eqb (str "password") (str "email")) with false.
  change (jsstring_eqb (str "password") (str "number")) with false.
  change (jsstring_eqb (str "password") (str "password")) with true.
  cbv zeta.
  destruct (jsstring_eqb (field_name field) (str "age")) eqn:E1;
    [apply jsstring_eqb_eq in E1; contradiction |].
  destruct (jsstring_eqb (field_name field) (str "bmi")) eqn:E2;
    [apply jsstring_eqb_eq in E2; contradiction |].
  destruct (jsstring_eqb (field_name field) (str "avg_glucose_level")) eqn:E3;
    [apply jsstring_eqb_eq in E3; contradiction |].
  simpl.
  destruct (required field && negb (truthy_string (trim (field_value field))));
    [reflexivity |].
  destruct (truthy_string (trim (field_value field))
            && (Nat.ltb (List.length (trim (field_value field))) 6));
    reflexivity.
Qed.

(** C9, as amended.  For a password input that is not named [age], [bmi] or
    [avg_glucose_level]: when its value, trimmed of white space, is not
    empty, [validateField] rejects it (password error shown, false returned)
    exactly when the trimmed value has fewer than 6 characters; when the
    trimmed value is empty, it is rejected exactly when the field carries
    the required attribute. *)
Theorem validateField_password (field : Field) :
  field_type field = str "password" ->
  field_name field <> str "age" ->
  field_name field <> str "bmi" ->
  field_name field <> str "avg_glucose_level" ->
  (trim (field_value field) <> [] ->
   (result (validateField field) = false <->
    (List.length (trim (field_value field)) < 6)%nat)
   /\ ((List.length (trim (field_value field)) < 6)%nat ->
       validateField field
       = (false, [clearFieldError field;
                  showFieldError field
                    [Text "Password must be at least 6 characters long"]])))
  /\ (trim (field_value field) = [] ->
      (result (validateField field) = false <-> required field = true)).
Proof.
  intros Htype Hage Hbmi Hglu.
  pose proof (first_error_password field Htype Hage Hbmi Hglu) as Hfe.
  cbv zeta in Hfe. split.
  - intros Hval. rewrite (truthy_string_nonempty _ Hval) in Hfe.
    rewrite andb_false_r in Hfe. simpl in Hfe.
    split.
    + rewrite validateField_rejects, Hfe.
      destruct (Nat.ltb_spec (List.length (trim (field_value field))) 6).
      * split; [auto | eauto].
      * split; [intros (m & Hm); discriminate | lia].
    + intros Hlen. apply validateField_shows. rewrite Hfe.
      apply Nat.ltb_lt in Hlen. rewrite Hlen. reflexivity.
  - intros Hval. rewrite Hval in Hfe. simpl in Hfe.
    rewrite validateField_rejects, Hfe, andb_true_r.
    destruct (required field); split; try congruence; eauto.
    intros (m & Hm). discriminate.
Qed.

Lemma validateField_password_witness :
  result (validateField short_password) = false.
Proof.
  apply (proj1 (proj1 (validateField_password short_password eq_refl
                  ltac:(vm_compute; discriminate)
                  ltac:(vm_compute; discriminate)
                  ltac:(vm_compute; discriminate))
                ltac:(vm_compute; discriminate))).
  vm_compute. lia.
Defined.

(** C9, as worded, fails.  Read on the value the field holds: [ abcde] has
    six characters, but [validateField] measures it trimmed, finds five and
    rejects it.  Read on the trimmed value: seven digits in a password
    input named [age] are long enough, and the age check rejects them. *)
Lemma password_claim_counterexample :
  ~ password_claim field_value padded_password
  /\ ~ password_claim (fun f => trim (field_value f)) password_named_age.
Proof.
  split; intros H.
  - assert (A : result (validateField padded_password) = false)
      by (vm_compute; reflexivity).
    apply (H eq_refl ltac:(vm_compute; discriminate)) in A.
    simpl in A. lia.
  - assert (A : result (validateField password_named_age) = false)
      by (vm_compute; reflexivity).
    apply (H eq_refl ltac:(vm_compute; discriminate)) in A.
    vm_compute in A. lia.
Qed.

(** ** Forms *)

Lemma validateField_field_calls (field : Field) :
  Forall is_field_call (calls (validateField field)).
Proof.
  rewrite validateField_first_error.
  destruct (first_error field); simpl; repeat constructor.
Qed.

Lemma validateEach_result (fields : list Field) :
  forall isValid,
    result (validateEach fields isValid)
    = isValid && forallb (fun f => result (validateField f)) fields.
Proof.
  induction fields as [| f rest IH]; intros isValid; simpl.
  - rewrite andb_true_r. reflexivity.
  - rewrite result_bind, IH.
    destruct (result (validateField f)), isValid; reflexivity.
Qed.

Lemma validateEach_field_calls (fields : list Field) :
  forall isValid, Forall is_field_call (calls (validateEach fields isValid)).
Proof.
  induction fields as [| f rest IH]; intros isValid; simpl.
  - constructor.
  - rewrite calls_bind. apply Forall_app. split.
    + apply validateField_field_calls.
    + apply IH.
Qed.

(** [validateForm] runs [validateField] on every required field, in order,
    whatever the earlier ones returned. *)
Lemma validateEach_calls (fields : list Field) :
  forall isValid,
    calls (validateEach fields isValid)
    = flat_map (fun f => calls (validateField f)) fields.
Proof.
  induction fields as [| f rest IH]; intros isValid; simpl.
  - reflexivity.
  - rewrite calls_bind, IH. reflexivity.
Qed.

Lemma onSubmit_calls (form : Form) :
  calls (onSubmit form)
  = calls (validateForm form)
    ++ (if result (validateForm form) then []
        else [preventDefault; warning_alert]).
Proof.
  unfold onSubmit. rewrite calls_bind.
  destruct (result (validateForm form)); reflexivity.
Qed.

(** C3.  [validateForm] returns true exactly when every field carrying the
    required attribute passes [validateField]; the submit listener calls
    [preventDefault] exactly when [validateForm] returns false, and shows an
    alert, the warning one, exactly then. *)
Theorem onSubmit_spec (form : Form) :
  (result (validateForm form) = true <->
   Forall (fun f => result (validateField f) = true) (filter required form))
  /\ (In preventDefault (calls (onSubmit form)) <->
      result (validateForm form) = false)
  /\ (In warning_alert (calls (onSubmit form)) <->
      result (validateForm form) = false)
  /\ (forall m type, In (callShowAlert m type) (calls (onSubmit form)) ->
      callShowAlert m type = warning_alert).
Proof.
  assert (Hcalls : forall c, ~ is_field_call c ->
            (In c (calls (onSubmit form)) <->
             result (validateForm form) = false
             /\ In c [preventDefault; warning_alert])).
  { intros c Hc. rewrite onSubmit_calls, in_app_iff.
    pose proof (validateEach_field_calls (requiredFields form) true) as F.
    rewrite Forall_forall in F. fold (validateForm form) in F.
    destruct (result (validateForm form)); simpl.
    - split; [intros [H | []]; elim (Hc (F _ H)) | intros [H _]; discriminate].
    - split; [intros [H | H]; [elim (Hc (F _ H)) | auto] | tauto]. }
  split; [| split; [| split]].
  - unfold validateForm, requiredFields. rewrite validateEach_result. simpl.
    rewrite forallb_forall, Forall_forall. reflexivity.
  - rewrite Hcalls by (simpl; tauto). simpl. tauto.
  - rewrite Hcalls by (simpl; tauto). simpl. tauto.
  - intros m type H. apply Hcalls in H; [| simpl; tauto].
    destruct H as [_ [H | [H | []]]]; [discriminate | auto].
Qed.

(** ** Toast alerts *)

Lemma node_induction (P : node -> Prop) :
  (forall data, P (TextNode data)) ->
  (forall tag cl kids, Forall P kids -> P (Element tag cl kids)) ->
  forall n, P n.
Proof.
  intros HT HE. fix IH 1. intros [data | tag cl kids].
  - apply HT.
  - apply HE. induction kids as [| k rest IHk]; constructor.
    + apply IH.
    + exact IHk.
Qed.

Lemma count_forest_app (c : jsstring) (a b : list node) :
  count_forest c (a ++ b) = (count_forest c a + count_forest c b)%nat.
Proof.
  unfold count_forest. rewrite map_app, list_sum_app. reflexivity.
Qed.

Lemma count_forest_cons (c : jsstring) (n : node) (ns : list node) :
  count_forest c (n :: ns) = (count_class c n + count_forest c ns)%nat.
Proof. reflexivity. Qed.

Lemma count_element (c : jsstring) tag cl kids :
  count_class c (Element tag cl kids)
  = ((if hasClass c cl then 1 else 0) + count_forest c kids)%nat.
Proof. reflexivity. Qed.

(** Once the elements of a class are removed, none is left. *)
Lemma remove_class_elements_none (c : jsstring) (n : node) :
  count_forest c (remove_class_elements c n) = 0%nat.
Proof.
  induction n as [data | tag cl kids IH] using node_induction.
  - reflexivity.
  - simpl. destruct (hasClass c cl) eqn:Hc; [reflexivity |].
    rewrite count_forest_cons, count_element, Hc. simpl.
    assert (H : count_forest c (flat_map (remove_class_elements c) kids) = 0%nat).
    { induction IH as [| k rest Hk _ IHrest]; [reflexivity |].
      simpl. rewrite count_forest_app, Hk, IHrest. reflexivity. }
    rewrite H. reflexivity.
Qed.

Lemma removeAll_none (c : jsstring) (doc : document) :
  count_document c (removeAll c doc) = 0%nat.
Proof.
  destruct doc as [root |]; [| reflexivity]. simpl.
  pose proof (remove_class_elements_none c root) as H.
  destruct (remove_class_elements c root) as [| r rest]; [reflexivity |].
  rewrite count_forest_cons in H. simpl. lia.
Qed.

Lemma append_to_body_count (c : jsstring) (child : node) (kids : list node) :
  forall kids', append_to_body child kids = Some kids' ->
  count_forest c kids' = (count_forest c kids + count_class c child)%nat.
Proof.
  induction kids as [| k rest IH]; intros kids' H; simpl in H; [discriminate |].
  destruct (is_body k) eqn:Hb.
  - injection H as <-. rewrite !count_forest_cons.
    destruct k as [data | tag cl ks]; [discriminate |].
    simpl appendChild. rewrite !count_element, count_forest_app.
    rewrite (count_forest_cons c child []).
    change (count_forest c []) with 0%nat. lia.
  - destruct (append_to_body child rest) as [rest' |]; [| discriminate].
    injection H as <-. rewrite !count_forest_cons, (IH rest' eq_refl). lia.
Qed.

Lemma body_appendChild_count (c : jsstring) (child : node) (doc doc' : document) :
  body_appendChild child doc = Returns doc' ->
  count_document c doc' = (count_document c doc + count_class c child)%nat.
Proof.
  destruct doc as [[data | tag cl kids] |]; simpl; try discriminate.
  destruct (String.eqb tag "html"); [| discriminate].
  destruct (append_to_body child kids) as [kids' |] eqn:E; [| discriminate].
  intros H. injection H as <-. simpl.
  change (list_sum (List.map (count_class c) kids')) with (count_forest c kids').
  rewrite (append_to_body_count c child kids kids' E).
  unfold count_forest. lia.
Qed.

Lemma tokens_from_word (w : jsstring) :
  forall cur, Forall (fun c => isAsciiWhitespace c = false) w ->
              cur <> [] \/ w <> [] ->
              tokens_from cur w = [rev cur ++ w].
Proof.
  induction w as [| c t IH]; intros cur F Hne.
  - destruct Hne as [Hne | Hne]; [| congruence].
    simpl. destruct cur; [congruence |]. rewrite app_nil_r. reflexivity.
  - inversion F as [| ? ? Hc Ft]; subst. simpl. rewrite Hc.
    rewrite IH; [| exact Ft | left; discriminate].
    simpl. rewrite <- app_assoc. reflexivity.
Qed.

Lemma tokens_from_last (w : jsstring) (s : jsstring) :
  Forall (fun c => isAsciiWhitespace c = false) w -> w <> [] ->
  forall cur, In w (tokens_from cur (s ++ 32%N :: w)).
Proof.
  intros F Hne. induction s as [| c t IH]; intros cur.
  - simpl. change (isAsciiWhitespace 32%N) with true. cbv iota.
    pose proof (tokens_from_word w [] F (or_intror Hne)) as Hw. simpl in Hw.
    destruct cur; rewrite Hw; simpl; auto.
  - simpl. destruct (isAsciiWhitespace c).
    + destruct cur; [apply IH | right; apply IH].
    + apply IH.
Qed.

Lemma alert_has_toast_class (type : jsstring) :
  hasClass toast (classTokens (str "alert alert-" ++ type ++ str " alert-toast"))
  = true.
Proof.
  unfold hasClass, classTokens. apply existsb_exists. exists toast.
  split; [| apply jsstring_eqb_refl].
  rewrite app_assoc.
  change (str " alert-toast") with (32%N :: toast).
  apply tokens_from_last; [| discriminate].
  vm_compute. repeat constructor.
Qed.

Lemma existsb_map {A B : Type} (f : B -> bool) (g : A -> B) (l : list A) :
  existsb f (List.map g l) = existsb (fun x => f (g x)) l.
Proof.
  induction l as [| x t IH]; [reflexivity |]. simpl. rewrite IH. reflexivity.
Qed.

Lemma tokenize_app (a b : jsstring) :
  forall state,
    tokenize state (a ++ b)
    = match scan state a with
      | Some (tokens, state') => option_map (app tokens) (tokenize state' b)
      | None => None
      end.
Proof.
  induction a as [| c t IH]; intros state.
  - simpl. destruct (tokenize state b); reflexivity.
  - simpl. destruct (tokenizer_step state c) as [[emitted state'] |];
      [| reflexivity].
    rewrite IH. destruct (scan state' t) as [[more final] |]; [| reflexivity].
    destruct (tokenize final b); simpl; [| reflexivity].
    rewrite app_assoc. reflexivity.
Qed.

Lemma scan_text (text : jsstring) :
  plain_text text = true ->
  scan Data text = Some (List.map Character text, Data).
Proof.
  induction text as [| c t IH]; intros H; [reflexivity |].
  simpl in H. apply andb_true_iff in H. destruct H as [Hc Ht].
  apply negb_true_iff in Hc. apply orb_false_iff in Hc.
  destruct Hc as [Hc H13]. apply orb_false_iff in Hc. destruct Hc as [H60 H38].
  simpl. rewrite H60, H38, H13. simpl. rewrite (IH Ht). reflexivity.
Qed.

Lemma tags_of_class_app (c : jsstring) (a b : list token) :
  tags_of_class c (a ++ b) = (tags_of_class c a + tags_of_class c b)%nat.
Proof.
  unfold tags_of_class. rewrite filter_app, length_app. reflexivity.
Qed.

Lemma tags_of_class_text (c : jsstring) (text : jsstring) :
  tags_of_class c (List.map Character text) = 0%nat.
Proof.
  unfold tags_of_class. induction text; [reflexivity | exact IHtext].
Qed.

Lemma nest_app (a b : list token) :
  forall open,
    nest (a ++ b) open
    = match nest a open with
      | Some open' => nest b open'
      | None => None
      end.
Proof.
  induction a as [| t rest IH]; intros open; [reflexivity |].
  destruct t as [c | name attributes | name]; simpl.
  - apply IH.
  - destruct (covered_tag name) as [tag |]; [| reflexivity].
    destruct (String.eqb tag "button" && _); [reflexivity | apply IH].
  - destruct open as [| o outer]; [reflexivity |].
    destruct (covered_tag name) as [tag |]; [| reflexivity].
    destruct (String.eqb tag o); [apply IH | reflexivity].
Qed.

Lemma nest_characters (text : jsstring) (open : list string) :
  nest (List.map Character text) open = Some open.
Proof. induction text; [reflexivity | exact IHtext]. Qed.

(** [build] gives a result exactly when the tags nest and all are closed
    at the end. *)
Lemma build_nest (tokens : list token) :
  forall b,
    (exists nodes, build tokens b = Some nodes)
    <-> nest tokens (List.map open_tag (fst b)) = Some [].
Proof.
  induction tokens as [| t rest IH]; intros [stack root].
  - simpl. destruct stack; simpl; split;
      try discriminate; try (intros (n & H); discriminate); eauto.
  - destruct t as [c | name attributes | name].
    + simpl. destruct (char_eqb c 0).
      * apply (IH (stack, root)).
      * destruct stack as [| e stack'].
        -- apply (IH ([], insert_character c root)).
        -- apply (IH (mkOpen (open_tag e) (open_classes e)
                        (insert_character c (open_children e)) :: stack', root)).
    + simpl. destruct (covered_tag name) as [tag |];
        [| split; [intros (n & H); discriminate | discriminate]].
      rewrite existsb_map.
      destruct (String.eqb tag "button" && _);
        [split; [intros (n & H); discriminate | discriminate] |].
      apply (IH (mkOpen tag (class_attribute attributes) [] :: stack, root)).
    + simpl. destruct stack as [| e stack'];
        [split; [intros (n & H); discriminate | discriminate] |].
      simpl. destruct (covered_tag name) as [tag |];
        [| split; [intros (n & H); discriminate | discriminate]].
      destruct (String.eqb tag (open_tag e));
        [| split; [intros (n & H); discriminate | discriminate]].
      destruct stack' as [| e' stack'']; simpl.
      * apply (IH ([], _ :: root)).
      * apply (IH (mkOpen (open_tag e') (open_classes e') _ :: stack'', root)).
Qed.

Lemma count_forest_rev (c : jsstring) (ns : list node) :
  count_forest c (rev ns) = count_forest c ns.
Proof.
  induction ns as [| n t IH]; [reflexivity |].
  simpl rev. rewrite count_forest_app, IH, !count_forest_cons.
  change (count_forest c []) with 0%nat. lia.
Qed.

Lemma count_insert_character (c : jsstring) (x : char) (kids : list node) :
  count_forest c (insert_character x kids) = count_forest c kids.
Proof.
  destruct kids as [| [data | tag cl ks] t]; reflexivity.
Qed.

(** What [build] gives holds no more elements of a class than the builder
    held and the start tags bring. *)
Lemma build_held (c : jsstring) (tokens : list token) :
  forall b nodes,
    build tokens b = Some nodes ->
    (count_forest c nodes <= held c b + tags_of_class c tokens)%nat.
Proof.
  induction tokens as [| t rest IH]; intros [stack root] nodes H.
  - simpl in H. destruct stack; [| discriminate]. injection H as <-.
    unfold held. simpl. rewrite count_forest_rev. lia.
  - simpl in H.
    destruct (build_step t (stack, root)) as [b' |] eqn:E; [| discriminate].
    specialize (IH b' nodes H).
    assert (Hstep : (held c b' + tags_of_class c rest
                     <= held c (stack, root) + tags_of_class c (t :: rest))%nat).
    { clear IH H. destruct t as [x | name attributes | name]; simpl in E.
      - change (tags_of_class c (Character x :: rest))
          with (tags_of_class c rest).
        destruct (char_eqb x 0); [injection E as <-; lia |].
        destruct stack as [| e stack']; injection E as <-; unfold held; simpl;
          rewrite count_insert_character; lia.
      - destruct (covered_tag name) as [tag |]; [| discriminate].
        destruct (String.eqb tag "button" && _); [discriminate |].
        injection E as <-. unfold held, tags_of_class. simpl.
        change (count_forest c []) with 0%nat.
        destruct (hasClass c (class_attribute attributes)); simpl; lia.
      - change (tags_of_class c (EndTag name :: rest))
          with (tags_of_class c rest).
        destruct stack as [| e stack']; [discriminate |].
        destruct (covered_tag name) as [tag |]; [| discriminate].
        destruct (String.eqb tag (open_tag e)); [| discriminate].
        injection E as <-.
        destruct stack' as [| e' stack'']; unfold held; simpl;
          rewrite count_forest_cons, count_element, count_forest_rev; lia. }
    lia.
Qed.

Lemma getOwnProperty_value (o : properties) (key : jsstring) (v : jsval) :
  getOwnProperty o key = Some v -> In v (List.map snd o).
Proof.
  induction o as [| [k w] rest IH]; [discriminate |].
  simpl. destruct (jsstring_eqb k key).
  - intros H. injection H as <-. left. reflexivity.
  - intros H. right. apply IH. exact H.
Qed.

(** Whatever the type, the icon is text without markup. *)
Lemma icon_plain (type : jsstring) : plain_text (icon type) = true.
Proof.
  assert (Hall : forallb (fun v => plain_text (to_text v))
                   (List.map snd icons ++ List.map snd ObjectPrototype) = true)
    by (vm_compute; reflexivity).
  rewrite forallb_forall in Hall.
  assert (Hinfo : get icons (str "info") = VString [8505%N; 65039%N])
    by reflexivity.
  unfold icon, or_else.
  destruct (truthy (get icons type)) eqn:Ht; [| rewrite Hinfo; reflexivity].
  apply Hall. unfold get in *.
  destruct (getOwnProperty icons type) as [v |] eqn:E1.
  - apply in_or_app. left. exact (getOwnProperty_value _ _ _ E1).
  - destruct (getOwnProperty ObjectPrototype type) as [v |] eqn:E2.
    + apply in_or_app. right. exact (getOwnProperty_value _ _ _ E2).
    + discriminate.
Qed.

(** With a message without markup the whole template is covered, and what
    it parses to holds no toast. *)
Lemma alert_html_plain (message type : jsstring) :
  plain_text message = true ->
  exists nodes,
    parseFragment (alert_html message type) = Some nodes
    /\ count_forest toast nodes = 0%nat.
Proof.
  intros Hm. pose proof (icon_plain type) as Hi.
  assert (Sh : scan Data alert_html_head
               = Some (scanned alert_html_head, Data))
    by (vm_compute; reflexivity).
  assert (Sm : scan Data alert_html_middle
               = Some (scanned alert_html_middle, Data))
    by (vm_compute; reflexivity).
  assert (St : tokenize Data alert_html_tail = Some (scanned alert_html_tail))
    by (vm_compute; reflexivity).
  set (tokens := scanned alert_html_head
                 ++ List.map Character (icon type)
                 ++ scanned alert_html_middle
                 ++ List.map Character message
                 ++ scanned alert_html_tail).
  assert (T : tokenize Data (alert_html message type) = Some tokens).
  { unfold alert_html.
    rewrite tokenize_app, Sh, tokenize_app, (scan_text _ Hi).
    rewrite tokenize_app, Sm, tokenize_app, (scan_text _ Hm), St.
    reflexivity. }
  assert (N : nest tokens [] = Some []).
  { unfold tokens.
    assert (N1 : nest (scanned alert_html_head) []
                 = Some ["span"; "div"]%string) by (vm_compute; reflexivity).
    assert (N2 : nest (scanned alert_html_middle) ["span"; "div"]%string
                 = Some ["span"; "div"]%string) by (vm_compute; reflexivity).
    assert (N3 : nest (scanned alert_html_tail) ["span"; "div"]%string
                 = Some []) by (vm_compute; reflexivity).
    rewrite nest_app, N1, nest_app, nest_characters.
    rewrite nest_app, N2, nest_app, nest_characters. exact N3. }
  assert (C : tags_of_class toast tokens = 0%nat).
  { unfold tokens. rewrite !tags_of_class_app, !tags_of_class_text.
    reflexivity. }
  apply (build_nest tokens ([], [])) in N. destruct N as (nodes & B).
  exists nodes. unfold parseFragment. rewrite T. split; [exact B |].
  pose proof (build_held toast tokens ([], []) nodes B) as H.
  rewrite C in H. unfold held in H. simpl in H. lia.
Qed.

Lemma sample_parse_agrees : agrees sample_parse.
Proof.
  intros html nodes H. unfold sample_parse. rewrite H. reflexivity.
Qed.

(** After [showAlert] the page holds the new toast and whatever toasts its
    content was parsed to, nothing of what was there before. *)
Lemma showAlert_count (parse : jsstring -> list node)
    (message type : jsstring) (doc doc' : document) :
  showAlert parse message type doc = Returns doc' ->
  count_document toast doc'
  = S (count_forest toast (parse (alert_html message type))).
Proof.
  unfold showAlert. intros H.
  rewrite (body_appendChild_count toast _ _ _ H), removeAll_none.
  rewrite count_element, alert_has_toast_class. reflexivity.
Qed.

(** C8, as amended.  When the message is text without markup (no [<], no
    [&], no carriage return), the document holds exactly one element of
    class [alert-toast] once [showAlert] has returned: the toasts shown
    before are removed, the new one is appended.  The browser's parser is
    any that does with the template what the HTML standard says. *)
Theorem showAlert_single_toast (parse : jsstring -> list node)
    (message type : jsstring) (doc doc' : document) :
  agrees parse ->
  plain_text message = true ->
  showAlert parse message type doc = Returns doc' ->
  count_document toast (removeAll toast doc) = 0%nat
  /\ count_document toast doc' = 1%nat.
Proof.
  intros Ha Hm H. split; [apply removeAll_none |].
  rewrite (showAlert_count _ _ _ _ _ H).
  destruct (alert_html_plain message type Hm) as (nodes & Hp & Hz).
  rewrite (Ha _ _ Hp), Hz. reflexivity.
Qed.

Lemma showAlert_single_toast_witness :
  count_document toast page_with_toasts = 2%nat
  /\ count_document toast page_after_alert = 1%nat.
Proof.
  split; [reflexivity |].
  apply (showAlert_single_toast sample_parse (str "Saved") (str "warning")
           page_with_toasts page_after_alert).
  - exact sample_parse_agrees.
  - reflexivity.
  - vm_compute. reflexivity.
Defined.

(** [showAlert] returns on every page whose [html] element and first body
    are not toasts themselves. *)
Lemma showAlert_returns (parse : jsstring -> list node)
    (message type : jsstring)
    (cl : list jsstring) (before after : list node)
    (bcl : list jsstring) (bkids : list node) :
  hasClass toast cl = false ->
  hasClass toast bcl = false ->
  Forall (fun k => is_body k = false) before ->
  exists doc',
    showAlert parse message type
      (Some (Element "html" cl (before ++ Element "body" bcl bkids :: after)))
    = Returns doc'.
Proof.
  intros Hcl Hbcl Hbefore. unfold showAlert, removeAll.
  simpl remove_class_elements. rewrite Hcl. unfold body_appendChild.
  change (String.eqb "html" "html") with true. cbv iota.
  rewrite flat_map_app. simpl flat_map. rewrite Hbcl. simpl app.
  set (alert := Element "div" _ _).
  set (rest := flat_map (remove_class_elements toast) after).
  set (body' := Element "body" bcl _).
  assert (H : exists kids',
             append_to_body alert
               (flat_map (remove_class_elements toast) before ++ body' :: rest)
             = Some kids').
  { assert (Hb : is_body body' = true) by reflexivity.
    clearbody alert rest body'.
    induction Hbefore as [| k ks Hk _ IH].
    - simpl. rewrite Hb. eexists. reflexivity.
    - simpl flat_map. destruct k as [data | tag kcl kkids]; simpl.
      + destruct IH as (kids' & ->). simpl. eexists. reflexivity.
      + destruct (hasClass toast kcl); simpl.
        * exact IH.
        * simpl in Hk. rewrite Hk. destruct IH as (kids' & ->). simpl.
          eexists. reflexivity. }
  destruct H as (kids' & ->). eexists. reflexivity.
Qed.

(** C8, as worded, fails: the message is spliced into the markup of the
    alert, and with a message that is itself an element of class
    [alert-toast] every parser that follows the standard leaves two of
    them. *)
Lemma single_toast_claim_counterexample :
  ~ exists parse,
      agrees parse
      /\ single_toast_claim parse toast_markup (str "info") page_with_toasts.
Proof.
  intros (parse & Ha & H).
  destruct (parseFragment (alert_html toast_markup (str "info")))
    as [nodes |] eqn:P; [| vm_compute in P; discriminate].
  assert (C : count_forest toast nodes = 1%nat).
  { vm_compute in P. injection P as <-. reflexivity. }
  destruct (showAlert_returns parse toast_markup (str "info") []
              [Element "head" [] []] [] []
              [ Element "form" [] [];
                Element "div" [str "alert"; toast] [TextNode (str "old")];
                Element "div" [toast] [] ]
              eq_refl eq_refl ltac:(repeat constructor)) as (doc' & E).
  change (Some (Element "html" [] _)) with page_with_toasts in E.
  pose proof (H doc' E) as H1.
  rewrite (showAlert_count _ _ _ _ _ E), (Ha _ _ P), C in H1. discriminate.
Qed.

(** ** Risk-level colours *)

Lemma getOwnProperty_absent (o : properties) (key : jsstring) :
  ~ In key (List.map fst o) -> getOwnProperty o key = None.
Proof.
  induction o as [| [k v] rest IH]; intros H; [reflexivity |].
  simpl. destruct (jsstring_eqb k key) eqn:E.
  - apply jsstring_eqb_eq in E. exfalso. apply H. left. exact E.
  - apply IH. intros Hin. apply H. right. exact Hin.
Qed.

(** The six tier names get six different colour strings. *)
Lemma getRiskLevelColor_tiers :
  List.map getRiskLevelColor tier_names
  = [ VString (str "#28a745"); VString (str "#17a2b8");
      VString (str "#ffc107"); VString (str "#fd7e14");
      VString (str "#dc3545"); VString (str "#6f42c1") ]
  /\ NoDup (List.map getRiskLevelColor tier_names).
Proof.
  split; [reflexivity |].
  vm_compute. repeat constructor; simpl; intuition discriminate.
Qed.

(** A level that is neither a tier name nor the name of a property that
    object literals inherit gets the default colour. *)
Lemma getRiskLevelColor_default (level : jsstring) :
  ~ In level tier_names ->
  ~ In level (List.map fst ObjectPrototype) ->
  getRiskLevelColor level = VString default_color.
Proof.
  intros Ht Hp. unfold getRiskLevelColor, get. cbv zeta.
  rewrite getOwnProperty_absent by exact Ht.
  rewrite getOwnProperty_absent by exact Hp. reflexivity.
Qed.

(** C4 at the level [constructor]: the name is not a tier, and the lookup
    finds the property inherited from [Object.prototype], so what comes back
    is a function and not the default colour. *)
Theorem getRiskLevelColor_constructor :
  ~ In (str "constructor") tier_names
  /\ getRiskLevelColor (str "constructor") = VFunction "Object"
  /\ getRiskLevelColor (str "constructor") <> VString default_color.
Proof.
  split; [| split].
  - vm_compute. intuition discriminate.
  - reflexivity.
  - vm_compute. discriminate.
Qed.

(** ** Risk scores *)

Module RiskScorerFacts.

Import RiskScorer.
Local Open Scope Q_scope.

Lemma clamp_bounds (lo hi x : Q) :
  lo <= hi -> lo <= clamp lo hi x /\ clamp lo hi x <= hi.
Proof.
  intros H. unfold clamp.
  destruct (Qltb x lo) eqn:E1.
  - split; [apply Qle_refl | exact H].
  - apply Qltb_ge in E1. destruct (Qltb hi x) eqn:E2.
    + split; [exact H | apply Qle_refl].
    + apply Qltb_ge in E2. split; assumption.
Qed.

(** C1.  For every valid profile the score that [score] returns lies in the
    configured bound range, [0, 100] in the example configuration: the
    accumulated weights are clamped before they are returned. *)
Theorem score_within_bounds (cfg : Config) (profile : HealthProfile) :
  valid_profile profile ->
  lower cfg <= upper cfg ->
  lower cfg <= result_score (score cfg profile)
  /\ result_score (score cfg profile) <= upper cfg.
Proof.
  intros _ H. unfold score.
  destruct (accumulate (rules cfg) profile 0 []) as [total factors].
  simpl. apply clamp_bounds. exact H.
Qed.

Lemma example_profile_valid : valid_profile example_profile.
Proof.
  unfold valid_profile, example_profile. simpl.
  repeat split; try lia; unfold Qle; simpl; lia.
Qed.

Lemma score_within_bounds_witness :
  0 <= result_score (score example_config example_profile)
  /\ result_score (score example_config example_profile) <= 100.
Proof.
  apply (score_within_bounds example_config example_profile).
  - exact example_profile_valid.
  - unfold Qle. simpl. lia.
Defined.

End RiskScorerFacts.

(** ** Number formatting *)

Lemma insertCommas_cons (prev : option char) (c : char) (t : jsstring) :
  insertCommas prev (c :: t)
  = (if nonWordBoundary prev (Some c) && threes (c :: t) then [comma] else [])
    ++ c :: insertCommas (Some c) t.
Proof. reflexivity. Qed.

Lemma insertCommas_nil (prev : option char) : insertCommas prev [] = [].
Proof. simpl. rewrite andb_false_r. reflexivity. Qed.

Lemma removeCommas_app (a b : jsstring) :
  removeCommas (a ++ b) = removeCommas a ++ removeCommas b.
Proof. apply filter_app. Qed.

Lemma removeCommas_cons (c : char) (t : jsstring) :
  removeCommas (c :: t)
  = (if char_eqb c comma then [] else [c]) ++ removeCommas t.
Proof.
  unfold removeCommas. simpl. destruct (char_eqb c comma); reflexivity.
Qed.

Lemma insertCommas_removeCommas (s : jsstring) :
  forall prev, removeCommas (insertCommas prev s) = removeCommas s.
Proof.
  induction s as [| c t IH]; intros prev.
  - rewrite insertCommas_nil. reflexivity.
  - rewrite insertCommas_cons, removeCommas_app, !removeCommas_cons, IH.
    destruct (nonWordBoundary prev (Some c) && threes (c :: t)); reflexivity.
Qed.

(** X1.  [formatNumber] only puts commas in: with the commas taken out
    again, its result is its argument with the commas taken out; a text
    without commas comes back as it was. *)
Theorem formatNumber_only_inserts_commas (num : jsstring) :
  removeCommas (formatNumber num) = removeCommas num
  /\ (~ In comma num -> removeCommas (formatNumber num) = num).
Proof.
  split; [apply insertCommas_removeCommas |].
  intros H. unfold formatNumber. rewrite insertCommas_removeCommas.
  unfold removeCommas. induction num as [| c t IH]; [reflexivity |].
  simpl. destruct (char_eqb c comma) eqn:E.
  - apply N.eqb_eq in E. exfalso. apply H. left. exact E.
  - simpl. f_equal. apply IH. intros Hin. apply H. right. exact Hin.
Qed.

Lemma formatNumber_only_inserts_commas_witness :
  removeCommas (formatNumber (str "1234567.25")) = str "1234567.25".
Proof.
  apply (proj2 (formatNumber_only_inserts_commas (str "1234567.25"))).
  vm_compute. intuition discriminate.
Defined.

Lemma insertCommas_prev (s : jsstring) (p q : option char) :
  isWord p = isWord q -> insertCommas p s = insertCommas q s.
Proof.
  intros H. destruct s as [| c t].
  - rewrite !insertCommas_nil. reflexivity.
  - rewrite !insertCommas_cons. unfold nonWordBoundary. rewrite H. reflexivity.
Qed.

(** The look-ahead stops at the first character that is no digit, as it
    does at the end. *)
Lemma threes_stop (c : char) (b : jsstring) :
  isDigit c = false ->
  forall n s, (List.length s <= n)%nat -> threes (s ++ c :: b) = threes s.
Proof.
  intros Hc. induction n as [| n IH]; intros s Hn.
  - destruct s; [| simpl in Hn; lia]. simpl.
    destruct b as [| x [| y r]]; try reflexivity. rewrite Hc. reflexivity.
  - destruct s as [| x [| y [| z r]]].
    + simpl. destruct b as [| x' [| y' r]]; try reflexivity.
      rewrite Hc. reflexivity.
    + simpl. destruct b as [| x' r]; try reflexivity.
      rewrite Hc, andb_false_r. reflexivity.
    + simpl. rewrite Hc, !andb_false_r. reflexivity.
    + change (threes ((x :: y :: z :: r) ++ c :: b))
        with (isDigit x && isDigit y && isDigit z
              && (noDigitNext (r ++ c :: b) || threes (r ++ c :: b))).
      change (threes (x :: y :: z :: r))
        with (isDigit x && isDigit y && isDigit z
              && (noDigitNext r || threes r)).
      rewrite (IH r) by (simpl in Hn; lia).
      destruct r as [| d r']; [| reflexivity].
      simpl. rewrite Hc. reflexivity.
Qed.

Lemma insertCommas_split (c : char) (b : jsstring) :
  isDigit c = false ->
  forall a prev,
    insertCommas prev (a ++ c :: b)
    = insertCommas prev a
      ++ (if nonWordBoundary (match a with [] => prev | _ => List.last (List.map Some a) None end)
               (Some c) && threes (c :: b) then [comma] else [])
      ++ c :: insertCommas (Some c) b.
Proof.
  intros Hc. induction a as [| x t IH]; intros prev.
  - rewrite insertCommas_nil. reflexivity.
  - change ((x :: t) ++ c :: b) with (x :: t ++ c :: b).
    rewrite !insertCommas_cons, IH.
    change (x :: t ++ c :: b) with ((x :: t) ++ c :: b).
    rewrite (threes_stop c b Hc _ (x :: t) (le_n _)).
    rewrite <- !app_assoc. f_equal. simpl. f_equal.
    destruct t as [| y t']; reflexivity.
Qed.

Lemma isWordChar_digit (c : char) : isDigit c = true -> isWordChar c = true.
Proof. unfold isWordChar. cbv zeta. intros ->. reflexivity. Qed.

Lemma not_word_not_digit (c : char) : isWordChar c = false -> isDigit c = false.
Proof.
  intros H. destruct (isDigit c) eqn:E; [| reflexivity].
  rewrite (isWordChar_digit c E) in H. discriminate.
Qed.

Lemma threes_not_digit (c : char) (b : jsstring) :
  isDigit c = false -> threes (c :: b) = false.
Proof.
  intros Hc. destruct b as [| y [| z r]]; simpl; try reflexivity.
  rewrite Hc. reflexivity.
Qed.

(** X2.  [formatNumber] treats the stretches on either side of a character
    that is no word character (a sign, a decimal point, a space)
    separately: the digits after a decimal point are grouped like those
    before it. *)
Theorem formatNumber_around_separator (a b : jsstring) (c : char) :
  isWordChar c = false ->
  formatNumber (a ++ c :: b) = formatNumber a ++ c :: formatNumber b.
Proof.
  intros Hw. pose proof (not_word_not_digit c Hw) as Hd.
  unfold formatNumber. rewrite (insertCommas_split c b Hd a None).
  rewrite (threes_not_digit c b Hd), andb_false_r. simpl.
  f_equal. f_equal. apply insertCommas_prev. simpl. exact Hw.
Qed.

Lemma formatNumber_around_separator_witness :
  formatNumber (str "1234.5678") = str "1,234.5,678".
Proof.
  change (str "1234.5678") with (str "1234" ++ full_stop :: str "5678").
  rewrite (formatNumber_around_separator (str "1234") (str "5678") full_stop);
    reflexivity.
Defined.

Lemma threes_three_more (x y z : char) :
  isDigit x = true -> isDigit y = true -> isDigit z = true ->
  forall n s, (List.length s <= n)%nat -> Forall (fun c => isDigit c = true) s ->
    threes (s ++ [x; y; z])
    = threes s || match s with [] => true | _ => false end.
Proof.
  intros Hx Hy Hz. induction n as [| n IH]; intros s Hn Hs.
  - destruct s; [| simpl in Hn; lia]. simpl. rewrite Hx, Hy, Hz. reflexivity.
  - destruct s as [| p [| q [| r t]]].
    + simpl. rewrite Hx, Hy, Hz. reflexivity.
    + simpl. rewrite Hz. simpl. rewrite !andb_false_r. reflexivity.
    + simpl. rewrite Hy. simpl. rewrite !andb_false_r. reflexivity.
    + change (threes ((p :: q :: r :: t) ++ [x; y; z]))
        with (isDigit p && isDigit q && isDigit r
              && (noDigitNext (t ++ [x; y; z]) || threes (t ++ [x; y; z]))).
      change (threes (p :: q :: r :: t))
        with (isDigit p && isDigit q && isDigit r
              && (noDigitNext t || threes t)).
      inversion Hs as [| ? ? _ Hs1]; subst.
      inversion Hs1 as [| ? ? _ Hs2]; subst.
      inversion Hs2 as [| ? ? _ Ht]; subst.
      rewrite (IH t) by (simpl in Hn; lia || exact Ht).
      rewrite orb_false_r.
      destruct t as [| d t'].
      * simpl. rewrite Hx. reflexivity.
      * simpl. rewrite orb_false_r. reflexivity.
Qed.

Lemma insertCommas_three_more (x y z : char) :
  isDigit x = true -> isDigit y = true -> isDigit z = true ->
  forall a prev,
    Forall (fun c => isDigit c = true) a ->
    isWord (match a with [] => prev | _ => Some x end) = true ->
    insertCommas prev (a ++ [x; y; z])
    = insertCommas prev a ++ comma :: [x; y; z].
Proof.
  intros Hx Hy Hz. induction a as [| c t IH]; intros prev Ha Hp.
  - rewrite insertCommas_nil. simpl app.
    rewrite !insertCommas_cons, insertCommas_nil.
    unfold nonWordBoundary. simpl in Hp. rewrite Hp. simpl.
    rewrite Hx, Hy, Hz, (isWordChar_digit x Hx), (isWordChar_digit y Hy).
    simpl. rewrite !andb_false_r. reflexivity.
  - inversion Ha as [| ? ? Hc Ht]; subst.
    change ((c :: t) ++ [x; y; z]) with (c :: t ++ [x; y; z]).
    rewrite !insertCommas_cons.
    rewrite (IH (Some c) Ht).
    + change (c :: t ++ [x; y; z]) with ((c :: t) ++ [x; y; z]).
      rewrite (threes_three_more x y z Hx Hy Hz _ (c :: t) (le_n _) Ha).
      rewrite orb_false_r, <- app_assoc. reflexivity.
    + destruct t; simpl; [apply isWordChar_digit; exact Hc
                         | apply isWordChar_digit; exact Hx].
Qed.

(** X3.  On a text of decimal digits [formatNumber] groups by three from the
    right: up to three digits are left as they are, and for more the last
    three are set off by a comma and what stands before them is formatted
    the same way. *)
Theorem formatNumber_digits (a b : jsstring) :
  Forall (fun c => isDigit c = true) a ->
  Forall (fun c => isDigit c = true) b ->
  ((List.length a <= 3)%nat -> formatNumber a = a)
  /\ (a <> [] -> List.length b = 3%nat ->
      formatNumber (a ++ b) = formatNumber a ++ comma :: b).
Proof.
  intros Ha Hb. split.
  - intros Hlen. unfold formatNumber.
    destruct a as [| x [| y [| z [| w r]]]]; try (simpl in Hlen; lia);
      repeat match goal with
             | H : Forall _ (_ :: _) |- _ => inversion H; clear H; subst
             end;
      rewrite ?insertCommas_cons, ?insertCommas_nil;
      unfold nonWordBoundary; simpl;
      repeat match goal with
             | H : isDigit ?c = true |- _ =>
                 rewrite ?H, ?(isWordChar_digit c H); clear H
             end;
      simpl; rewrite ?andb_false_r; reflexivity.
  - intros Hne Hlen.
    destruct b as [| x [| y [| z [| w r]]]]; try discriminate.
    inversion Hb as [| ? ? Hx Hb1]; subst.
    inversion Hb1 as [| ? ? Hy Hb2]; subst.
    inversion Hb2 as [| ? ? Hz _]; subst.
    unfold formatNumber. apply insertCommas_three_more; try assumption.
    destruct a; [congruence |]. simpl. apply isWordChar_digit. exact Hx.
Qed.

Lemma formatNumber_digits_witness :
  formatNumber (str "987") = str "987"
  /\ formatNumber (str "1234567" ++ str "890")
     = formatNumber (str "1234567") ++ comma :: str "890".
Proof.
  assert (D : forall s, forallb isDigit s = true ->
                        Forall (fun c => isDigit c = true) s).
  { intros s H. apply Forall_forall. apply forallb_forall. exact H. }
  split.
  - apply (proj1 (formatNumber_digits (str "987") []
                    (D (str "987") eq_refl) (D [] eq_refl))).
    simpl. lia.
  - apply (proj2 (formatNumber_digits (str "1234567") (str "890")
                    (D (str "1234567") eq_refl) (D (str "890") eq_refl)));
      [discriminate | reflexivity].
Defined.

(** ** Error messages in the page *)

Lemma remove_first_element (c : jsstring) tag cl kids :
  Dom.remove_first c (Element tag cl kids)
  = if hasClass c cl then Some []
    else match Dom.remove_first_among c kids with
         | Some kids' => Some [Element tag cl kids']
         | None => None
         end.
Proof.
  simpl. destruct (hasClass c cl); [reflexivity |].
  match goal with
  | |- match ?f kids with _ => _ end = _ =>
      assert (E : f kids = Dom.remove_first_among c kids)
  end.
  { induction kids as [| k rest IH]; [reflexivity |].
    simpl. destruct (Dom.remove_first c k); [reflexivity |].
    rewrite IH. reflexivity. }
  rewrite E. reflexivity.
Qed.

(** Removing the first element of a class takes at least one away; nothing
    is found exactly when there is none. *)
Lemma remove_first_count (c : jsstring) (n : node) :
  match Dom.remove_first c n with
  | Some r => (count_forest c r < count_class c n)%nat
  | None => count_class c n = 0%nat
  end.
Proof.
  induction n as [data | tag cl kids IH] using node_induction.
  - reflexivity.
  - rewrite remove_first_element, count_element.
    destruct (hasClass c cl) eqn:Hcl;
      [change (count_forest c []) with 0%nat; lia |].
    assert (H : match Dom.remove_first_among c kids with
                | Some r => (count_forest c r < count_forest c kids)%nat
                | None => count_forest c kids = 0%nat
                end).
    { induction IH as [| k rest Hk _ IHrest]; [reflexivity |].
      simpl. rewrite count_forest_cons.
      destruct (Dom.remove_first c k) as [r |].
      - rewrite count_forest_app. lia.
      - destruct (Dom.remove_first_among c rest) as [r |]; simpl.
        + rewrite count_forest_cons. lia.
        + lia. }
    destruct (Dom.remove_first_among c kids) as [r |].
    + rewrite count_forest_cons, count_element, Hcl.
      change (count_forest c []) with 0%nat. lia.
    + simpl. exact H.
Qed.

Lemma remove_first_among_count (c : jsstring) (ks : list node) :
  match Dom.remove_first_among c ks with
  | Some r => (count_forest c r < count_forest c ks)%nat
  | None => count_forest c ks = 0%nat
  end.
Proof.
  induction ks as [| k rest IH]; [reflexivity |].
  simpl. rewrite count_forest_cons.
  pose proof (remove_first_count c k) as Hk.
  destruct (Dom.remove_first c k) as [r |].
  - rewrite count_forest_app. lia.
  - destruct (Dom.remove_first_among c rest) as [r |]; simpl.
    + rewrite count_forest_cons. lia.
    + lia.
Qed.

Lemma remove_first_among_clean (c : jsstring) (ks : list node) :
  count_forest c ks = 0%nat -> Dom.remove_first_among c ks = None.
Proof.
  intros H. pose proof (remove_first_among_count c ks) as Hc.
  destruct (Dom.remove_first_among c ks); [lia | reflexivity].
Qed.

Lemma hasClass_app (c : jsstring) (a b : list jsstring) :
  hasClass c (a ++ b) = hasClass c a || hasClass c b.
Proof. apply existsb_app. Qed.

Lemma hasClass_add (c x : jsstring) (cl : list jsstring) :
  hasClass c (Dom.classList_add x cl) = hasClass c cl || jsstring_eqb c x.
Proof.
  unfold Dom.classList_add. destruct (hasClass x cl) eqn:E.
  - destruct (jsstring_eqb c x) eqn:Ec; [| rewrite orb_false_r; reflexivity].
    apply jsstring_eqb_eq in Ec. subst. rewrite E. reflexivity.
  - rewrite hasClass_app. simpl. rewrite orb_false_r. reflexivity.
Qed.

Lemma hasClass_remove (c x : jsstring) (cl : list jsstring) :
  hasClass c (Dom.classList_remove x cl)
  = hasClass c cl && negb (jsstring_eqb x c).
Proof.
  unfold Dom.classList_remove, hasClass.
  induction cl as [| y t IH]; [reflexivity |].
  simpl. destruct (jsstring_eqb x y) eqn:Exy; simpl.
  - apply jsstring_eqb_eq in Exy. subst y. rewrite IH.
    destruct (jsstring_eqb c x) eqn:Ecx.
    + apply jsstring_eqb_eq in Ecx. subst c. rewrite jsstring_eqb_refl.
      simpl. rewrite andb_false_r. reflexivity.
    + simpl. reflexivity.
  - rewrite IH. destruct (jsstring_eqb c y) eqn:Ecy; [| reflexivity].
    apply jsstring_eqb_eq in Ecy. subst y. rewrite Exy. simpl.
    reflexivity.
Qed.

Lemma classList_remove_add (x : jsstring) (cl : list jsstring) :
  hasClass x cl = false ->
  Dom.classList_remove x (Dom.classList_add x cl) = cl.
Proof.
  intros H. unfold Dom.classList_add. rewrite H.
  unfold Dom.classList_remove. rewrite filter_app. simpl.
  rewrite jsstring_eqb_refl. simpl. rewrite app_nil_r.
  unfold hasClass in H. induction cl as [| y t IH]; [reflexivity |].
  simpl in *. apply orb_false_iff in H. destruct H as [Hy Ht].
  rewrite Hy. simpl. f_equal. apply IH. exact Ht.
Qed.

(** What [removeErrorMessage] does to a control in place: it returns, the
    control stays in place with its classes, and an error message, if
    there is one, is gone. *)
Lemma removeErrorMessage_in_place (d : Dom.FieldDom) :
  in_place d ->
  exists d',
    Dom.removeErrorMessage d = Returns d'
    /\ in_place d'
    /\ Dom.classList d' = Dom.classList d
    /\ Dom.tagName d' = Dom.tagName d
    /\ (Dom.errorMessages d' <= Dom.errorMessages d)%nat
    /\ ((Dom.errorMessages d <= 1)%nat -> Dom.errorMessages d' = 0%nat)
    /\ (Dom.errorMessages d = 0%nat -> d' = d).
Proof.
  intros [Hp Hc]. unfold Dom.removeErrorMessage, Dom.errorMessages, in_place.
  unfold Dom.fieldNode.
  destruct d as [tag cl kids [[before after] |]];
    cbn [Dom.parentNode Dom.classList Dom.childNodes Dom.tagName] in *;
    [| congruence].
  rewrite count_element, Hc.
  pose proof (remove_first_among_count Dom.error_message before) as Hb.
  pose proof (remove_first_among_count Dom.error_message kids) as Hk.
  pose proof (remove_first_among_count Dom.error_message after) as Ha.
  destruct (Dom.remove_first_among Dom.error_message before) as [b' |];
    [| destruct (Dom.remove_first_among Dom.error_message kids) as [k' |];
       [| destruct (Dom.remove_first_among Dom.error_message after) as [a' |]]];
    (eexists; split; [reflexivity |];
     cbn [Dom.parentNode Dom.classList Dom.childNodes Dom.tagName];
     rewrite ?count_element, ?Hc;
     repeat split; try assumption; try discriminate; try lia;
     intros; exfalso; lia).
Qed.

Lemma in_place_classes (d : Dom.FieldDom) (cl : list jsstring) :
  in_place d ->
  hasClass Dom.error_message cl = hasClass Dom.error_message (Dom.classList d) ->
  in_place (Dom.mkFieldDom (Dom.tagName d) cl (Dom.childNodes d)
              (Dom.parentNode d)).
Proof.
  intros [Hp Hc] E. split; simpl; [exact Hp | rewrite E; exact Hc].
Qed.

Lemma errorMessages_classes (d : Dom.FieldDom) (cl : list jsstring) :
  hasClass Dom.error_message cl = hasClass Dom.error_message (Dom.classList d) ->
  Dom.errorMessages (Dom.mkFieldDom (Dom.tagName d) cl (Dom.childNodes d)
                       (Dom.parentNode d))
  = Dom.errorMessages d.
Proof.
  intros E. unfold Dom.errorMessages, Dom.fieldNode.
  cbn [Dom.parentNode Dom.classList Dom.childNodes Dom.tagName].
  destruct (Dom.parentNode d) as [[before after] |]; [| reflexivity].
  rewrite !count_element, E. reflexivity.
Qed.

Lemma clearFieldError_in_place (d : Dom.FieldDom) :
  in_place d ->
  exists d',
    Dom.clearFieldError d = Returns d'
    /\ in_place d'
    /\ hasClass Dom.error (Dom.classList d') = false
    /\ ((Dom.errorMessages d <= 1)%nat -> Dom.errorMessages d' = 0%nat)
    /\ (Dom.errorMessages d = 0%nat ->
        hasClass Dom.error (Dom.classList d) = false -> d' = d).
Proof.
  intros Hd. unfold Dom.clearFieldError.
  set (d0 := Dom.mkFieldDom _ _ _ _).
  assert (E : hasClass Dom.error_message (Dom.classList_remove Dom.error
                                            (Dom.classList d))
              = hasClass Dom.error_message (Dom.classList d)).
  { rewrite hasClass_remove. change (jsstring_eqb Dom.error Dom.error_message)
      with false. apply andb_true_r. }
  destruct (removeErrorMessage_in_place d0 (in_place_classes d _ Hd E))
    as (d' & Hr & Hp & Hcl & _ & _ & H1 & H0).
  exists d'. split; [exact Hr |]. split; [exact Hp |].
  unfold d0 in *. rewrite (errorMessages_classes d _ E) in *.
  split; [| split].
  - rewrite Hcl. simpl. rewrite hasClass_remove, jsstring_eqb_refl.
    apply andb_false_r.
  - exact H1.
  - intros Hz He. rewrite (H0 Hz). destruct d as [tag cl kids p]. simpl.
    f_equal. simpl in He. clear - He.
    unfold Dom.classList_remove, hasClass in *.
    induction cl as [| y t IH]; [reflexivity |].
    simpl in *. apply orb_false_iff in He. destruct He as [Hy Ht].
    rewrite Hy. simpl. f_equal. apply IH. exact Ht.
Qed.

Lemma showFieldError_in_place (message : jsstring) (d : Dom.FieldDom) :
  in_place d ->
  exists d' before after,
    Dom.showFieldError message d = Returns d'
    /\ in_place d'
    /\ Dom.parentNode d' = Some (before, after ++ [Dom.errorDiv message])
    /\ hasClass Dom.error (Dom.classList d') = true
    /\ ((Dom.errorMessages d <= 1)%nat -> Dom.errorMessages d' = 1%nat)
    /\ (Dom.errorMessages d = 0%nat ->
        d' = Dom.mkFieldDom (Dom.tagName d)
               (Dom.classList_add Dom.error (Dom.classList d))
               (Dom.childNodes d)
               (Some (before, after ++ [Dom.errorDiv message]))
        /\ Dom.parentNode d = Some (before, after)).
Proof.
  intros Hd. unfold Dom.showFieldError.
  set (d0 := Dom.mkFieldDom _ _ _ _).
  assert (E : hasClass Dom.error_message (Dom.classList_add Dom.error
                                            (Dom.classList d))
              = hasClass Dom.error_message (Dom.classList d)).
  { rewrite hasClass_add. change (jsstring_eqb Dom.error_message Dom.error)
      with false. apply orb_false_r. }
  destruct (removeErrorMessage_in_place d0 (in_place_classes d _ Hd E))
    as (d1 & Hr & [Hp Hc] & Hcl & Htag & _ & H1 & H0).
  rewrite Hr. unfold d0 in *. rewrite (errorMessages_classes d _ E) in *.
  destruct d1 as [tag1 cl1 kids1 [[before after] |]]; simpl in *;
    [| congruence].
  eexists. exists before, after. split; [reflexivity |].
  split; [split; simpl; [discriminate | exact Hc] |].
  split; [reflexivity |]. split; [| split].
  - simpl. rewrite Hcl, hasClass_add, jsstring_eqb_refl. apply orb_true_r.
  - intros Hle. specialize (H1 Hle).
    unfold Dom.errorMessages, Dom.fieldNode in *. simpl in *.
    rewrite count_forest_app. unfold Dom.errorDiv.
    rewrite (count_forest_cons _ _ []), count_element.
    change (hasClass Dom.error_message [Dom.error_message]) with true.
    assert (Z : count_forest Dom.error_message
                  (match message with [] => [] | _ :: _ => [TextNode message] end)
                = 0%nat) by (destruct message; reflexivity).
    rewrite Z. change (count_forest Dom.error_message []) with 0%nat. lia.
  - intros Hz. specialize (H0 Hz). injection H0 as -> -> -> Hpar.
    split; [reflexivity | symmetry; exact Hpar].
Qed.

(** X4.  On a control that has a parent and is not itself an error message,
    [showFieldError] returns with the class [error] on the control and the
    new message as the last child of the parent; if the parent held at most
    one error message before, it holds exactly one now. *)
Theorem showFieldError_shows_one (message : jsstring) (d : Dom.FieldDom) :
  in_place d ->
  exists d' before after,
    Dom.showFieldError message d = Returns d'
    /\ Dom.parentNode d' = Some (before, after ++ [Dom.errorDiv message])
    /\ hasClass Dom.error (Dom.classList d') = true
    /\ ((Dom.errorMessages d <= 1)%nat -> Dom.errorMessages d' = 1%nat).
Proof.
  intros Hd.
  destruct (showFieldError_in_place message d Hd)
    as (d' & before & after & H1 & _ & H2 & H3 & H4 & _).
  exists d', before, after. auto.
Qed.

(** X5.  On such a control [clearFieldError] returns with the class [error]
    off the control; if the parent held at most one error message, it holds
    none now. *)
Theorem clearFieldError_clears (d : Dom.FieldDom) :
  in_place d ->
  exists d',
    Dom.clearFieldError d = Returns d'
    /\ hasClass Dom.error (Dom.classList d') = false
    /\ ((Dom.errorMessages d <= 1)%nat -> Dom.errorMessages d' = 0%nat).
Proof.
  intros Hd.
  destruct (clearFieldError_in_place d Hd) as (d' & H1 & _ & H2 & H3 & _).
  exists d'. auto.
Qed.

(** X6.  Showing an error and clearing it again leaves a control as it was,
    when it was in place without the class [error] and its parent held no
    error message. *)
Theorem showFieldError_clearFieldError (message : jsstring) (d : Dom.FieldDom) :
  in_place d ->
  hasClass Dom.error (Dom.classList d) = false ->
  Dom.errorMessages d = 0%nat ->
  exists d1,
    Dom.showFieldError message d = Returns d1
    /\ Dom.clearFieldError d1 = Returns d.
Proof.
  intros Hd He Hz.
  destruct (showFieldError_in_place message d Hd)
    as (d1 & before & after & Hs & _ & _ & _ & _ & H0).
  destruct (H0 Hz) as [-> Hpar].
  eexists. split; [exact Hs |].
  unfold Dom.clearFieldError. cbn [Dom.tagName Dom.classList Dom.childNodes
                                   Dom.parentNode].
  rewrite (classList_remove_add Dom.error _ He).
  unfold Dom.removeErrorMessage.
  cbn [Dom.tagName Dom.classList Dom.childNodes Dom.parentNode].
  destruct Hd as [_ Hc]. rewrite Hc.
  unfold Dom.errorMessages, Dom.fieldNode in Hz. rewrite Hpar in Hz.
  rewrite count_element, Hc in Hz.
  rewrite (remove_first_among_clean _ before) by lia.
  rewrite (remove_first_among_clean _ (Dom.childNodes d)) by lia.
  assert (Ha : Dom.remove_first_among Dom.error_message
                 (after ++ [Dom.errorDiv message]) = Some after).
  { assert (Hz' : count_forest Dom.error_message after = 0%nat) by lia.
    clear - Hz'. induction after as [| k rest IH].
    - reflexivity.
    - rewrite count_forest_cons in Hz'. simpl.
      pose proof (remove_first_count Dom.error_message k) as Hk.
      destruct (Dom.remove_first Dom.error_message k); [lia |].
      rewrite IH by lia. reflexivity. }
  rewrite Ha. destruct d as [tag cl kids p]. simpl in *. rewrite Hpar.
  reflexivity.
Qed.

Lemma sample_control_in_place : in_place sample_control.
Proof. split; [discriminate | reflexivity]. Qed.

Lemma showFieldError_shows_one_witness :
  exists d' before after,
    Dom.showFieldError (str "This field is required") sample_control
    = Returns d'
    /\ Dom.parentNode d'
       = Some (before, after ++ [Dom.errorDiv (str "This field is required")])
    /\ hasClass Dom.error (Dom.classList d') = true
    /\ ((Dom.errorMessages sample_control <= 1)%nat ->
        Dom.errorMessages d' = 1%nat).
Proof.
  apply (showFieldError_shows_one (str "This field is required") sample_control).
  split; [discriminate | reflexivity].
Defined.

Lemma clearFieldError_clears_witness :
  exists d',
    Dom.clearFieldError sample_control_in_error = Returns d'
    /\ hasClass Dom.error (Dom.classList d') = false
    /\ ((Dom.errorMessages sample_control_in_error <= 1)%nat ->
        Dom.errorMessages d' = 0%nat).
Proof.
  apply (clearFieldError_clears sample_control_in_error).
  split; [discriminate | reflexivity].
Defined.

Lemma showFieldError_clearFieldError_witness :
  exists d1,
    Dom.showFieldError (str "This field is required") sample_control
    = Returns d1
    /\ Dom.clearFieldError d1 = Returns sample_control.
Proof.
  apply (showFieldError_clearFieldError (str "This field is required")
           sample_control);
    [split; [discriminate | reflexivity] | reflexivity | reflexivity].
Defined.

(** X7.  [validateField] on a control in place whose parent holds at most
    one error message leaves the page in step with its verdict: accepted,
    no error message and no class [error]; rejected, exactly one error
    message, the one of the failed check as last child of the parent, and
    the class [error] on the control. *)
Theorem validateField_on_page (number_text : number -> jsstring)
    (field : Field) (d : Dom.FieldDom) :
  in_place d ->
  (Dom.errorMessages d <= 1)%nat ->
  exists d',
    perform_on number_text (calls (validateField field)) d = Returns d'
    /\ (result (validateField field) = true ->
        Dom.errorMessages d' = 0%nat
        /\ hasClass Dom.error (Dom.classList d') = false)
    /\ (result (validateField field) = false ->
        Dom.errorMessages d' = 1%nat
        /\ hasClass Dom.error (Dom.classList d') = true
        /\ exists m before after,
             In (showFieldError field m) (calls (validateField field))
             /\ Dom.parentNode d'
                = Some (before, after ++ [Dom.errorDiv (render number_text m)])).
Proof.
  intros Hd Hle.
  destruct (clearFieldError_in_place d Hd) as (d1 & Hc & Hd1 & He1 & Hz1 & _).
  specialize (Hz1 Hle).
  rewrite validateField_first_error.
  destruct (first_error field) as [m |]; cbn [calls result fst snd perform_on].
  - rewrite Hc.
    destruct (showFieldError_in_place (render number_text m) d1 Hd1)
      as (d2 & before & after & Hs & _ & Hpar & He2 & H1 & _).
    rewrite Hs. exists d2. split; [reflexivity |].
    split; [discriminate |]. intros _.
    split; [apply H1; lia |]. split; [exact He2 |].
    exists m, before, after. split; [right; left; reflexivity | exact Hpar].
  - rewrite Hc. exists d1. split; [reflexivity |].
    split; [auto | discriminate].
Qed.

Lemma validateField_on_page_witness :
  exists d',
    perform_on no_number_text (calls (validateField age_thirty))
      sample_control_in_error = Returns d'
    /\ (result (validateField age_thirty) = true ->
        Dom.errorMessages d' = 0%nat
        /\ hasClass Dom.error (Dom.classList d') = false)
    /\ (result (validateField age_thirty) = false ->
        Dom.errorMessages d' = 1%nat
        /\ hasClass Dom.error (Dom.classList d') = true
        /\ exists m before after,
             In (showFieldError age_thirty m) (calls (validateField age_thirty))
             /\ Dom.parentNode d'
                = Some (before,
                        after ++ [Dom.errorDiv (render no_number_text m)])).
Proof.
  apply (validateField_on_page no_number_text age_thirty
           sample_control_in_error).
  - split; [discriminate | reflexivity].
  - vm_compute. lia.
Defined.

(** ** More on field and form validation *)

(** X8.  [validateForm] runs [validateField] on every required field, in
    document order, also after one has failed: its calls are those of
    [validateField] on each required field in turn, so that
    [clearFieldError] is called on every required field and
    [showFieldError] on every one that fails; it makes no call on any
    other field. *)
Theorem validateForm_every_required (form : Form) :
  calls (validateForm form)
  = flat_map (fun f => calls (validateField f)) (filter required form)
  /\ (forall f, In f form -> required f = true ->
      In (clearFieldError f) (calls (validateForm form))
      /\ (result (validateField f) = false ->
          exists m, In (showFieldError f m) (calls (validateForm form))))
  /\ (forall c, In c (calls (validateForm form)) ->
      exists f, In f form /\ required f = true
                /\ In c (calls (validateField f))).
Proof.
  unfold validateForm, requiredFields. rewrite validateEach_calls.
  split; [reflexivity |]. split.
  - intros f Hin Hreq.
    assert (Hf : In f (filter required form))
      by (apply filter_In; split; assumption).
    split.
    + apply in_flat_map. exists f. split; [exact Hf |].
      rewrite validateField_first_error.
      destruct (first_error f); left; reflexivity.
    + intros Hrej. apply validateField_rejects in Hrej.
      destruct Hrej as (m & Hm). exists m.
      apply in_flat_map. exists f. split; [exact Hf |].
      rewrite (validateField_shows f m Hm). right. left. reflexivity.
  - intros c Hc. apply in_flat_map in Hc. destruct Hc as (f & Hf & Hc).
    apply filter_In in Hf. destruct Hf as [Hin Hreq]. exists f. auto.
Qed.

Lemma type_specific_blank (field : Field) : type_specific field [] = None.
Proof.
  unfold type_specific.
  destruct (jsstring_eqb (field_type field) (str "email")); [reflexivity |].
  destruct (jsstring_eqb (field_type field) (str "number")).
  - cbv zeta. change (parseFloat []) with NaN. simpl.
    rewrite !andb_false_r.
    destruct (parseFloat (attribute_text (attr_max field)));
      simpl; rewrite ?andb_false_r; reflexivity.
  - destruct (jsstring_eqb (field_type field) (str "password")); reflexivity.
Qed.

(** X9.  A field whose value is empty or blank is rejected exactly when it
    carries the required attribute, with the error that the field is
    required; an optional one is accepted whatever its type and name. *)
Theorem validateField_blank (field : Field) :
  trim (field_value field) = [] ->
  validateField field
  = if required field
    then (false, [clearFieldError field;
                  showFieldError field [Text "This field is required"]])
    else (true, [clearFieldError field]).
Proof.
  intros H. rewrite validateField_first_error. unfold first_error.
  rewrite H, type_specific_blank. simpl.
  rewrite andb_true_r, !andb_false_r. simpl.
  destruct (required field); reflexivity.
Qed.

Lemma validateField_blank_witness :
  validateField blank_optional = (true, [clearFieldError blank_optional]).
Proof.
  apply (validateField_blank blank_optional). reflexivity.
Defined.

Lemma first_error_unnamed (field : Field) :
  checked_by_name (field_name field) = false ->
  first_error field =
  if required field && negb (truthy_string (trim (field_value field)))
  then Some [Text "This field is required"]
  else type_specific field (trim (field_value field)).
Proof.
  unfold checked_by_name. intros H.
  apply orb_false_iff in H. destruct H as [H H3].
  apply orb_false_iff in H. destruct H as [H1 H2].
  unfold first_error. rewrite H1, H2, H3. simpl.
  destruct (required field && _); [reflexivity |].
  destruct (type_specific field (trim (field_value field))); reflexivity.
Qed.

(** X10.  An e-mail input with a value, whose name is none of the three
    checked by name, is accepted exactly when [isValidEmail] accepts its
    trimmed value, and is rejected with the e-mail error otherwise. *)
Theorem validateField_email (field : Field) :
  field_type field = str "email" ->
  checked_by_name (field_name field) = false ->
  trim (field_value field) <> [] ->
  (result (validateField field) = true <->
   isValidEmail (trim (field_value field)) = true)
  /\ (isValidEmail (trim (field_value field)) = false ->
      validateField field
      = (false, [clearFieldError field;
                 showFieldError field
                   [Text "Please enter a valid email address"]])).
Proof.
  intros Htype Hname Hval.
  pose proof (first_error_unnamed field Hname) as Hfe.
  rewrite (truthy_string_nonempty _ Hval), andb_false_r in Hfe.
  unfold type_specific in Hfe. rewrite Htype in Hfe.
  change (jsstring_eqb (str "email") (str "email")) with true in Hfe.
  rewrite (truthy_string_nonempty _ Hval) in Hfe. simpl in Hfe.
  split.
  - rewrite validateField_accepts, Hfe.
    destruct (isValidEmail (trim (field_value field)));
      simpl; split; congruence.
  - intros Hbad. apply validateField_shows. rewrite Hfe, Hbad. reflexivity.
Qed.

Lemma validateField_email_witness :
  result (validateField (email_input "ann@mail.org")) = true.
Proof.
  apply (proj1 (validateField_email (email_input "ann@mail.org") eq_refl eq_refl
                  ltac:(vm_compute; discriminate))).
  reflexivity.
Defined.

(** X11.  A number input that [validateField] accepts with a value holds a
    number that is not below its [min] attribute and not above its [max]
    attribute, whenever the attribute is a number. *)
Theorem validateField_number_bounds (field : Field) :
  field_type field = str "number" ->
  trim (field_value field) <> [] ->
  result (validateField field) = true ->
  let numValue := parseFloat (trim (field_value field)) in
  let min := parseFloat (attribute_text (attr_min field)) in
  let max := parseFloat (attribute_text (attr_max field)) in
  isNaN numValue = false
  /\ (isNaN min = false -> lt numValue min = false)
  /\ (isNaN max = false -> gt numValue max = false).
Proof.
  intros Htype Hval Hacc. cbv zeta.
  apply validateField_accepts in Hacc. unfold first_error in Hacc.
  rewrite (truthy_string_nonempty _ Hval), andb_false_r in Hacc.
  destruct (type_specific field (trim (field_value field))) as [m |] eqn:Hts;
    [discriminate |].
  clear Hacc. unfold type_specific in Hts. rewrite Htype in Hts.
  change (jsstring_eqb (str "number") (str "email")) with false in Hts.
  change (jsstring_eqb (str "number") (str "number")) with true in Hts.
  cbv zeta iota in Hts.
  rewrite (truthy_string_nonempty _ Hval) in Hts. simpl andb in Hts.
  destruct (isNaN (parseFloat (trim (field_value field)))); [discriminate |].
  split; [reflexivity |].
  destruct (isNaN (parseFloat (attribute_text (attr_min field)))); simpl in Hts.
  - split; [discriminate |].
    destruct (isNaN (parseFloat (attribute_text (attr_max field))));
      simpl in Hts; [discriminate |].
    destruct (gt _ _); [discriminate | reflexivity].
  - destruct (lt _ (parseFloat (attribute_text (attr_min field))));
      [discriminate |].
    split; [reflexivity |].
    destruct (isNaN (parseFloat (attribute_text (attr_max field))));
      simpl in Hts; [discriminate |].
    destruct (gt _ _); [discriminate | reflexivity].
Qed.

Lemma validateField_number_bounds_witness :
  isNaN (parseFloat (str "30")) = false
  /\ (isNaN (parseFloat (str "0")) = false ->
      lt (parseFloat (str "30")) (parseFloat (str "0")) = false)
  /\ (isNaN (parseFloat (str "120")) = false ->
      gt (parseFloat (str "30")) (parseFloat (str "120")) = false).
Proof.
  apply (validateField_number_bounds age_thirty eq_refl
           ltac:(vm_compute; discriminate) eq_refl).
Defined.

(** X12.  [validateField] first clears the error of the field and then
    shows at most one: none when it returns true, exactly one when it
    returns false. *)
Theorem validateField_one_error (field : Field) :
  (result (validateField field) = true
   /\ calls (validateField field) = [clearFieldError field])
  \/ (result (validateField field) = false
      /\ exists m, calls (validateField field)
                   = [clearFieldError field; showFieldError field m]).
Proof.
  rewrite validateField_first_error.
  destruct (first_error field) as [m |]; [right | left]; simpl; eauto.
Qed.

(** X13.  An address that [isValidEmail] accepts holds exactly one [@] and
    at least five characters. *)
Theorem isValidEmail_one_at (email : jsstring) :
  isValidEmail email = true ->
  count_occ N.eq_dec email at_sign = 1%nat /\ (5 <= List.length email)%nat.
Proof.
  intros H. apply isValidEmail_shape in H.
  destruct H as (a & b & c & -> & Ha & Hb & Hc & Fa & Fb & Fc).
  assert (Z : forall l : list N,
             Forall plain l -> count_occ N.eq_dec l at_sign = 0%nat).
  { intros l F. apply count_occ_not_In. apply plain_not_at. exact F. }
  unfold char in *. split.
  - rewrite (count_occ_app N.eq_dec a), (Z a Fa). simpl.
    destruct (N.eq_dec at_sign at_sign) as [_ | N]; [| congruence].
    rewrite count_occ_app, (Z b Fb). simpl.
    destruct (N.eq_dec full_stop at_sign) as [E | _]; [discriminate |].
    rewrite (Z c Fc). reflexivity.
  - rewrite length_app. simpl. rewrite length_app. simpl.
    destruct a; [congruence |]. destruct b; [congruence |].
    destruct c; [congruence |]. simpl. lia.
Qed.

Lemma isValidEmail_one_at_witness :
  count_occ N.eq_dec (str "a@b.c") at_sign = 1%nat
  /\ (5 <= List.length (str "a@b.c"))%nat.
Proof.
  apply (isValidEmail_one_at (str "a@b.c")). reflexivity.
Defined.

(** ** Modals, keys and repeated alerts *)

Lemma remove_selected_none (sel : list jsstring -> bool) (c : jsstring) :
  (forall cl, hasClass c cl = true -> sel cl = true) ->
  forall n, count_forest c (remove_selected sel n) = 0%nat.
Proof.
  intros Hsel. induction n as [data | tag cl kids IH] using node_induction.
  - reflexivity.
  - simpl. destruct (sel cl) eqn:Hs; [reflexivity |].
    rewrite count_forest_cons, count_element.
    destruct (hasClass c cl) eqn:Hc;
      [rewrite (Hsel cl Hc) in Hs; discriminate |].
    assert (H : count_forest c (flat_map (remove_selected sel) kids) = 0%nat).
    { induction IH as [| k rest Hk _ IHrest]; [reflexivity |].
      simpl. rewrite count_forest_app, Hk, IHrest. reflexivity. }
    rewrite H. reflexivity.
Qed.

Lemma remove_selected_le (sel : list jsstring -> bool) (c : jsstring) (n : node) :
  (count_forest c (remove_selected sel n) <= count_class c n)%nat.
Proof.
  induction n as [data | tag cl kids IH] using node_induction.
  - simpl. unfold count_forest. simpl. lia.
  - simpl remove_selected. rewrite count_element.
    destruct (sel cl); [change (count_forest c []) with 0%nat; lia |].
    rewrite count_forest_cons, count_element.
    change (count_forest c []) with 0%nat.
    assert (H : (count_forest c (flat_map (remove_selected sel) kids)
                 <= count_forest c kids)%nat).
    { induction IH as [| k rest Hk _ IHrest]; [simpl; lia |].
      simpl. rewrite count_forest_app, count_forest_cons. lia. }
    lia.
Qed.

Lemma remove_selected_element (sel : list jsstring -> bool) tag cl kids :
  remove_selected sel (Element tag cl kids)
  = if sel cl then []
    else [Element tag cl (flat_map (remove_selected sel) kids)].
Proof. reflexivity. Qed.

Lemma remove_selected_fixed (n : node) :
  count_class modal n = 0%nat -> count_class toast n = 0%nat ->
  remove_selected modal_or_toast n = [n].
Proof.
  induction n as [data | tag cl kids IH] using node_induction; intros Hm Ht.
  - reflexivity.
  - rewrite count_element in Hm, Ht. rewrite remove_selected_element.
    assert (E : modal_or_toast cl = false).
    { unfold modal_or_toast.
      destruct (hasClass modal cl); [lia |].
      destruct (hasClass toast cl); [lia | reflexivity]. }
    rewrite E. do 2 f_equal.
    assert (Hm' : count_forest modal kids = 0%nat) by lia.
    assert (Ht' : count_forest toast kids = 0%nat) by lia.
    clear Hm Ht.
    induction IH as [| k rest Hk _ IHrest]; [reflexivity |].
    rewrite count_forest_cons in Hm', Ht'.
    cbn [flat_map]. rewrite Hk by lia. rewrite IHrest by lia. reflexivity.
Qed.

Lemma closeAllModals_none (doc : document) :
  count_document modal (closeAllModals doc) = 0%nat
  /\ count_document toast (closeAllModals doc) = 0%nat.
Proof.
  destruct doc as [root |]; [| simpl; auto].
  assert (Hm : forall cl, hasClass modal cl = true -> modal_or_toast cl = true)
    by (intros cl H; unfold modal_or_toast; rewrite H; reflexivity).
  assert (Ht : forall cl, hasClass toast cl = true -> modal_or_toast cl = true)
    by (intros cl H; unfold modal_or_toast; rewrite H; apply orb_true_r).
  pose proof (remove_selected_none modal_or_toast modal Hm root) as Zm.
  pose proof (remove_selected_none modal_or_toast toast Ht root) as Zt.
  unfold closeAllModals.
  destruct (remove_selected modal_or_toast root) as [| r rest];
    [split; reflexivity |].
  rewrite count_forest_cons in Zm, Zt. simpl. lia.
Qed.

(** X14.  After [closeAllModals] the document holds no element of class
    [modal] and none of class [alert-toast]; no class gains elements; and a
    document that held neither is left as it was. *)
Theorem closeAllModals_closes (doc : document) :
  count_document modal (closeAllModals doc) = 0%nat
  /\ count_document toast (closeAllModals doc) = 0%nat
  /\ (forall c, (count_document c (closeAllModals doc)
                 <= count_document c doc)%nat)
  /\ (count_document modal doc = 0%nat -> count_document toast doc = 0%nat ->
      closeAllModals doc = doc).
Proof.
  destruct (closeAllModals_none doc) as [Hm Ht].
  split; [exact Hm |]. split; [exact Ht |].
  destruct doc as [root |]; [| simpl; auto].
  unfold closeAllModals. split.
  - intros c. pose proof (remove_selected_le modal_or_toast c root) as Hle.
    destruct (remove_selected modal_or_toast root) as [| r rest];
      [simpl; lia |]. rewrite count_forest_cons in Hle. simpl. lia.
  - simpl. intros H1 H2. rewrite (remove_selected_fixed root H1 H2).
    reflexivity.
Qed.

Lemma closeAllModals_closes_witness :
  count_document toast page_with_modal = 2%nat
  /\ count_document toast (closeAllModals page_with_modal) = 0%nat
  /\ closeAllModals (closeAllModals page_with_modal)
     = closeAllModals page_with_modal.
Proof.
  split; [reflexivity |]. split.
  - apply (proj1 (proj2 (closeAllModals_closes page_with_modal))).
  - apply (proj2 (proj2 (proj2 (closeAllModals_closes
                                  (closeAllModals page_with_modal)))));
      reflexivity.
Defined.

(** X15.  The [keydown] listener sends the window elsewhere, and prevents
    the default action, only for [h], [n] or [d] pressed with Ctrl or Meta;
    it changes the document only for Escape, and after Escape no modal and
    no toast is left, whatever the modifiers. *)
Theorem onKeydown_effects (e : KeyboardEvent) (w : Window) :
  (href (onKeydown e w) <> href w
   \/ defaultPrevented (onKeydown e w) <> defaultPrevented w ->
   ctrlKey e || metaKey e = true
   /\ In (key e) [str "h"; str "n"; str "d"])
  /\ (page (onKeydown e w) <> page w -> key e = str "Escape")
  /\ (key e = str "Escape" ->
      count_document modal (page (onKeydown e w)) = 0%nat
      /\ count_document toast (page (onKeydown e w)) = 0%nat
      /\ href (onKeydown e w) = href w
      /\ defaultPrevented (onKeydown e w) = defaultPrevented w).
Proof.
  unfold onKeydown.
  destruct (jsstring_eqb (key e) (str "Escape")) eqn:Eesc.
  - apply jsstring_eqb_eq in Eesc. rewrite Eesc.
    change (jsstring_eqb (str "Escape") (str "h")) with false.
    change (jsstring_eqb (str "Escape") (str "n")) with false.
    change (jsstring_eqb (str "Escape") (str "d")) with false.
    cbv iota.
    assert (E : (if ctrlKey e || metaKey e
                 then mkWindow (closeAllModals (page w)) (href w)
                        (defaultPrevented w)
                 else mkWindow (closeAllModals (page w)) (href w)
                        (defaultPrevented w))
                = mkWindow (closeAllModals (page w)) (href w)
                    (defaultPrevented w))
      by (destruct (ctrlKey e || metaKey e); reflexivity).
    rewrite E. simpl.
    destruct (closeAllModals_none (page w)) as (Hm & Ht).
    split; [intros [H | H]; congruence |]. split; [reflexivity |].
    intros _. auto.
  - assert (Hne : key e <> str "Escape").
    { intros H. rewrite H in Eesc. discriminate. }
    destruct (ctrlKey e || metaKey e) eqn:Emod.
    + destruct (jsstring_eqb (key e) (str "h")) eqn:Eh;
        [apply jsstring_eqb_eq in Eh; rewrite Eh; simpl;
         split; [intros _; auto | split; [congruence | congruence]] |].
      destruct (jsstring_eqb (key e) (str "n")) eqn:En;
        [apply jsstring_eqb_eq in En; rewrite En; simpl;
         split; [intros _; auto | split; [congruence | congruence]] |].
      destruct (jsstring_eqb (key e) (str "d")) eqn:Ed;
        [apply jsstring_eqb_eq in Ed; rewrite Ed; simpl;
         split; [intros _; auto 6 | split; [congruence | congruence]] |].
      split; [intros [H | H]; congruence | split; congruence].
    + split; [intros [H | H]; congruence | split; congruence].
Qed.

Lemma remove_class_elements_element (c : jsstring) tag cl kids :
  remove_class_elements c (Element tag cl kids)
  = if hasClass c cl then []
    else [Element tag cl (flat_map (remove_class_elements c) kids)].
Proof. reflexivity. Qed.

Lemma remove_class_elements_fixed (c : jsstring) (n : node) :
  count_class c n = 0%nat -> remove_class_elements c n = [n].
Proof.
  induction n as [data | tag cl kids IH] using node_induction; intros Hz.
  - reflexivity.
  - rewrite count_element in Hz. rewrite remove_class_elements_element.
    destruct (hasClass c cl); [lia |].
    do 2 f_equal.
    assert (Hz' : count_forest c kids = 0%nat) by lia. clear Hz.
    induction IH as [| k rest Hk _ IHrest]; [reflexivity |].
    rewrite count_forest_cons in Hz'.
    cbn [flat_map]. rewrite Hk by lia. rewrite IHrest by lia. reflexivity.
Qed.

Lemma remove_class_elements_forest_fixed (c : jsstring) (ks : list node) :
  count_forest c ks = 0%nat -> flat_map (remove_class_elements c) ks = ks.
Proof.
  induction ks as [| k rest IH]; intros Hz; [reflexivity |].
  rewrite count_forest_cons in Hz. cbn [flat_map].
  rewrite remove_class_elements_fixed by lia. rewrite IH by lia. reflexivity.
Qed.

Lemma append_to_body_removed (c : jsstring) (child : node) (kids : list node) :
  count_forest c kids = 0%nat ->
  remove_class_elements c child = [] ->
  forall kids', append_to_body child kids = Some kids' ->
                flat_map (remove_class_elements c) kids' = kids.
Proof.
  intros Hz Hchild. induction kids as [| k rest IH]; intros kids' H;
    simpl in H; [discriminate |].
  rewrite count_forest_cons in Hz.
  destruct (is_body k) eqn:Hb.
  - injection H as <-. destruct k as [data | tag cl ks]; [discriminate |].
    cbn [appendChild flat_map].
    rewrite remove_class_elements_element.
    rewrite count_element in Hz.
    destruct (hasClass c cl); [lia |].
    rewrite flat_map_app. cbn [flat_map]. rewrite Hchild, !app_nil_r.
    rewrite (remove_class_elements_forest_fixed c ks) by lia.
    rewrite (remove_class_elements_forest_fixed c rest) by lia.
    reflexivity.
  - destruct (append_to_body child rest) as [rest' |]; [| discriminate].
    injection H as <-. cbn [flat_map].
    rewrite remove_class_elements_fixed by lia.
    rewrite (IH ltac:(lia) rest' eq_refl). reflexivity.
Qed.

Lemma removeAll_after_showAlert (parse : jsstring -> list node)
    (message type : jsstring) (doc doc' : document) :
  showAlert parse message type doc = Returns doc' ->
  removeAll toast doc' = removeAll toast doc.
Proof.
  unfold showAlert. set (alert := Element "div" _ _). intros H.
  assert (Halert : remove_class_elements toast alert = []).
  { unfold alert. rewrite remove_class_elements_element, alert_has_toast_class.
    reflexivity. }
  clearbody alert.
  pose proof (removeAll_none toast doc) as Hz.
  destruct (removeAll toast doc) as [[data | tag cl kids] |];
    cbn [body_appendChild] in H; try discriminate.
  destruct (String.eqb tag "html"); [| discriminate].
  destruct (append_to_body alert kids) as [kids' |] eqn:E; [| discriminate].
  injection H as <-. cbn [count_document] in Hz. rewrite count_element in Hz.
  unfold removeAll. rewrite remove_class_elements_element.
  destruct (hasClass toast cl); [lia |].
  rewrite (append_to_body_removed toast alert kids ltac:(lia) Halert kids' E).
  reflexivity.
Qed.

(** X16.  A new alert replaces the one before it: once [showAlert] has
    returned, a second [showAlert] leaves the document that it would have
    left had the first not been shown. *)
Theorem showAlert_replaces (parse : jsstring -> list node)
    (m1 m2 : jsstring) (t1 t2 : jsstring) (doc doc1 : document) :
  showAlert parse m1 t1 doc = Returns doc1 ->
  showAlert parse m2 t2 doc1 = showAlert parse m2 t2 doc.
Proof.
  intros H. unfold showAlert at 1 2.
  rewrite (removeAll_after_showAlert parse m1 t1 doc doc1 H). reflexivity.
Qed.

Lemma showAlert_replaces_witness :
  showAlert sample_parse (str "Copied to clipboard!") (str "success")
    page_after_alert
  = showAlert sample_parse (str "Copied to clipboard!") (str "success")
      page_with_toasts.
Proof.
  apply (showAlert_replaces sample_parse (str "Saved")
           (str "Copied to clipboard!")
           (str "warning") (str "success") page_with_toasts page_after_alert).
  vm_compute. reflexivity.
Defined.

(** X17.  [showAlert] returns on every page whose [html] element and first
    body are no toasts themselves; it throws when there is no document
    element or when the document element is itself a toast. *)
Theorem showAlert_returns_or_throws (parse : jsstring -> list node)
    (message type : jsstring) :
  (forall cl before after bcl bkids,
      hasClass toast cl = false ->
      hasClass toast bcl = false ->
      Forall (fun k => is_body k = false) before ->
      exists doc',
        showAlert parse message type
          (Some (Element "html" cl (before ++ Element "body" bcl bkids :: after)))
        = Returns doc')
  /\ showAlert parse message type None = Throws
  /\ (forall tag cl kids,
         hasClass toast cl = true ->
         showAlert parse message type (Some (Element tag cl kids)) = Throws).
Proof.
  split; [| split].
  - intros cl before after bcl bkids. apply showAlert_returns.
  - reflexivity.
  - intros tag cl kids H. unfold showAlert, removeAll. simpl. rewrite H.
    reflexivity.
Qed.

(** ** Debounce and throttle *)

Lemma debounce_settled {A : Type} (es : list (timed A)) :
  forall timeout,
    debounce timeout es
    = match timeout, es with
      | Some args, Expire :: _ => [args]
      | _, _ => []
      end ++ settled es.
Proof.
  induction es as [| e rest IH]; intros timeout.
  - destruct timeout; reflexivity.
  - destruct e as [args |].
    + cbn [debounce debounce_step]. rewrite IH.
      destruct timeout, rest as [| [x |] r]; reflexivity.
    + cbn [debounce debounce_step].
      destruct timeout as [args |]; rewrite IH;
        destruct rest as [| [x |] r]; reflexivity.
Qed.

(** X18.  A debounced function never calls [func] while it is being called
    itself; [func] is called when the timer runs out, with the arguments of
    the call just before: what it is called with, in all, are the arguments
    of the calls that an expiry follows at once, so a burst of calls and
    one expiry give one call of [func], with the last arguments. *)
Theorem debounce_latest {A : Type} (es : list (timed A)) :
  debounce None es = settled es
  /\ (forall (burst : list A) (last : A),
         debounce None (List.map Invoke burst ++ [Invoke last; Expire])
         = [last])
  /\ (forall calls : list A, debounce None (List.map Invoke calls) = []).
Proof.
  split; [apply (debounce_settled es None) |]. split.
  - intros burst last. rewrite (debounce_settled _ None). simpl.
    induction burst as [| a t IH]; [reflexivity |].
    simpl. destruct t; exact IH.
  - intros calls. rewrite (debounce_settled _ None). simpl.
    induction calls as [| a t IH]; [reflexivity |].
    simpl. destruct t; exact IH.
Qed.

(** The throttle state that the code keeps: one timer set while
    [inThrottle], none otherwise. *)
Lemma throttle_bound {A : Type} (es : list (timed A)) :
  forall inThrottle : bool,
    (List.length (throttle (inThrottle, if inThrottle then 1 else 0)%nat es)
       + (if inThrottle then 1 else 0)
     <= S (expiries es))%nat.
Proof.
  induction es as [| e rest IH]; intros inThrottle.
  - destruct inThrottle; simpl; unfold expiries; simpl; lia.
  - destruct e as [args |]; destruct inThrottle;
      cbn [throttle throttle_step negb]; unfold expiries in *; simpl.
    + specialize (IH true). simpl in IH. lia.
    + specialize (IH true). simpl in IH. lia.
    + specialize (IH false). simpl in IH. lia.
    + specialize (IH false). simpl in IH. lia.
Qed.

Lemma throttle_spaced {A : Type} (calls : list A) :
  throttle (false, 0%nat) (flat_map (fun a => [Invoke a; Expire]) calls)
  = calls.
Proof.
  induction calls as [| a t IH]; [reflexivity |].
  simpl. f_equal. exact IH.
Qed.

(** X19.  A throttled function calls [func] at its first call, with that
    call's arguments; it calls [func] at most once more than timers have
    run out; and when a timer runs out after every call, every call goes
    through. *)
Theorem throttle_limits {A : Type} (es : list (timed A)) :
  (forall args : A, exists rest,
      throttle (false, 0%nat) (Invoke args :: es) = args :: rest)
  /\ (List.length (throttle (false, 0%nat) es) <= S (expiries es))%nat
  /\ (forall calls : list A,
         throttle (false, 0%nat)
           (flat_map (fun a => [Invoke a; Expire]) calls)
         = calls).
Proof.
  split; [| split].
  - intros args. eexists. reflexivity.
  - pose proof (throttle_bound es false) as H. simpl in H. lia.
  - apply throttle_spaced.
Qed.

(** ** Navigation highlighting *)

Lemma classList_add_twice (c : jsstring) (cl : list jsstring) :
  Dom.classList_add c (Dom.classList_add c cl) = Dom.classList_add c cl.
Proof.
  unfold Dom.classList_add at 1. rewrite hasClass_add, jsstring_eqb_refl.
  rewrite orb_true_r. reflexivity.
Qed.

(** X20.  Highlighting the navigation marks exactly the links whose [href]
    attribute equals the current path: afterwards a link has the class
    [active] when it had it or its [href] is the path, its other classes
    and its [href] are as before, and highlighting again changes
    nothing. *)
Theorem initializeNavigation_marks (currentPath : jsstring)
    (navLinks : list NavLink) :
  List.map link_href (initializeNavigation currentPath navLinks)
  = List.map link_href navLinks
  /\ (forall i link, nth_error navLinks i = Some link ->
      exists link',
        nth_error (initializeNavigation currentPath navLinks) i = Some link'
        /\ forall c,
             hasClass c (link_classes link')
             = hasClass c (link_classes link)
               || (jsstring_eqb c active
                   && match link_href link with
                      | Some h => jsstring_eqb h currentPath
                      | None => false
                      end))
  /\ initializeNavigation currentPath
       (initializeNavigation currentPath navLinks)
     = initializeNavigation currentPath navLinks.
Proof.
  unfold initializeNavigation. split; [| split].
  - rewrite map_map. apply map_ext. intros link.
    destruct (match link_href link with Some _ => _ | None => _ end);
      reflexivity.
  - intros i link H. eexists. split.
    + rewrite nth_error_map, H. reflexivity.
    + intros c.
      destruct (match link_href link with Some _ => _ | None => _ end);
        cbn [link_classes].
      * rewrite hasClass_add, andb_true_r. reflexivity.
      * rewrite andb_false_r, orb_false_r. reflexivity.
  - rewrite map_map. apply map_ext. intros link.
    destruct (match link_href link with Some _ => _ | None => _ end) eqn:E.
    + cbn [link_href link_classes]. rewrite E, classList_add_twice.
      reflexivity.
    + rewrite E. reflexivity.
Qed.

(** ** Risk-level colours, again *)

(** X21.  [getRiskLevelColor] never returns [undefined] or an empty text,
    and for a level that is neither a tier name nor the name of a property
    that object literals inherit it returns the default colour. *)
Theorem getRiskLevelColor_fallback (level : jsstring) :
  truthy (getRiskLevelColor level) = true
  /\ (~ In level tier_names ->
      ~ In level (List.map fst ObjectPrototype) ->
      getRiskLevelColor level = VString default_color).
Proof.
  split; [| apply getRiskLevelColor_default].
  unfold getRiskLevelColor, or_else.
  match goal with
  | |- truthy (if truthy ?v then _ else _) = true =>
      destruct (truthy v) eqn:E; [exact E | reflexivity]
  end.
Qed.

Lemma getRiskLevelColor_fallback_witness :
  getRiskLevelColor (str "Unknown") = VString default_color.
Proof.
  apply (proj2 (getRiskLevelColor_fallback (str "Unknown")));
    vm_compute; intuition discriminate.
Defined.
